(** * Car-Listing-Service: scrape, normalize, persist

    A shallow embedding of the scraper pipeline
    ([scrapers/facebook-scraper.js]) and of the persistence model
    ([models/car-listing.js], [config/database.js] and the migration
    [001_create_car_listings.sql]), with the properties of the design
    document checked against it. *)

From Stdlib Require Import String Ascii.
From stdpp Require Import base numbers list option gmap.

Local Open Scope N_scope.

(** ** JavaScript strings

    A JavaScript string is a sequence of UTF-16 code units; [length],
    regular expressions without the [u] flag and [includes] all work on
    code units. *)

Abbreviation jsstring := (list N).

(** ASCII literals of the source, as code units. *)
Fixpoint js (s : string) : jsstring :=
  match s with
  | EmptyString => []
  | String a s' => N_of_ascii a :: js s'
  end.

Definition peso : N := 8369.      (* U+20B1, the peso sign *)
Definition euro : N := 8364.      (* U+20AC *)
Definition pound : N := 163.      (* U+00A3 *)
Definition dollar : N := 36.      (* U+0024 *)
Definition comma : N := 44.
Definition breadcrumb : N := 8250. (* U+203A, single right angle quote *)

Definition is_digit (c : N) : bool := (48 <=? c) && (c <=? 57).
Definition is_upper (c : N) : bool := (65 <=? c) && (c <=? 90).
Definition is_lower (c : N) : bool := (97 <=? c) && (c <=? 122).

(** [\w]: letters, digits and the underscore. *)
Definition is_word (c : N) : bool :=
  is_digit c || is_upper c || is_lower c || (c =? 95).

(** [\s], also the code units removed by [String.prototype.trim]:
    WhiteSpace and LineTerminator of ECMAScript. *)
Definition is_space (c : N) : bool :=
  ((9 <=? c) && (c <=? 13)) || (c =? 32) || (c =? 160) || (c =? 5760)
  || ((8192 <=? c) && (c <=? 8202)) || (c =? 8232) || (c =? 8233)
  || (c =? 8239) || (c =? 8287) || (c =? 12288) || (c =? 65279).

(** A truthy string is a non-empty one. *)
Definition truthy (s : jsstring) : bool :=
  match s with [] => false | _ => true end.

(** [a || b] where [a] is a string, [undefined] or [null]. *)
Definition or_else {A : Type} (a : option jsstring) (inj : jsstring -> A) (b : A) : A :=
  match a with
  | Some s => if truthy s then inj s else b
  | None => b
  end.

(** [a || 'literal'] and [a || null]. *)
Definition or_string (a : option jsstring) (d : jsstring) : jsstring := or_else a id d.
Definition or_null (a : option jsstring) : option jsstring := or_else a Some None.

Fixpoint is_prefix (p s : jsstring) : bool :=
  match p, s with
  | [], _ => true
  | a :: p', b :: s' => (a =? b) && is_prefix p' s'
  | _ :: _, [] => false
  end.

(** [s.includes(p)] *)
Fixpoint includes (p s : jsstring) : bool :=
  is_prefix p s || match s with [] => false | _ :: s' => includes p s' end.

Fixpoint trim_start (s : jsstring) : jsstring :=
  match s with
  | c :: s' => if is_space c then trim_start s' else s
  | [] => []
  end.

(** [s.trim()] *)
Definition trim (s : jsstring) : jsstring :=
  reverse (trim_start (reverse (trim_start s))).

(** Equality of strings, as [===] and [Set.prototype.has] decide it. *)
Definition str_eqb (a b : jsstring) : bool := bool_decide (a = b).

(** ** JavaScript numbers

    The numbers of this program come from runs of decimal digits.  [Num n]
    is the double nearest to the natural number [n], which is [n] itself
    up to 2^53; [NaN] is the result of parsing no digit at all. *)

Inductive jsnumber : Type :=
| NaN
| Num (n : N).

Definition digit_value (c : N) : N := c - 48.

(** Value of a run of decimal digits, most significant first. *)
Definition decimal (s : jsstring) : N :=
  foldl (fun acc c => 10 * acc + digit_value c) 0 s.

Fixpoint digit_prefix (s : jsstring) : jsstring :=
  match s with
  | c :: s' => if is_digit c then c :: digit_prefix s' else []
  | [] => []
  end.

(** [parseFloat] and [parseInt(_, 10)] on the strings this program gives
    them, which hold decimal digits only: the value of the leading run of
    digits, [NaN] when there is none. *)
Definition parseFloat (s : jsstring) : jsnumber :=
  match digit_prefix s with
  | [] => NaN
  | ds => Num (decimal ds)
  end.

Definition parseInt10 (s : jsstring) : jsnumber := parseFloat s.

(** ** Regular expressions

    The patterns of the source, matched as ECMAScript does: a
    backtracking matcher in continuation-passing style, alternatives
    left to right, greedy quantifiers, the leftmost match wins. *)

Inductive regex : Type :=
| Empty                             (* the empty pattern *)
| Class (p : N -> bool)            (* one code unit of a class *)
| Seq (r1 r2 : regex)               (* r1 r2 *)
| Alt (r1 r2 : regex)               (* r1|r2 *)
| Star (r : regex)                  (* r*, greedy *)
| Group (n : nat) (r : regex)       (* capturing group number n *)
| WordBoundary                      (* \b *)
| StartOfInput.                     (* ^ *)

Definition Opt (r : regex) : regex := Alt r Empty.          (* r? *)
Definition Plus (r : regex) : regex := Seq r (Star r).       (* r+ *)
Definition Chr (c : N) : regex := Class (N.eqb c).

(** A letter under the [i] flag: either case (canonicalization leaves
    code units above 127 alone, so only the ASCII pair matches). *)
Definition ChrI (c : N) : regex :=
  Class (fun x => (x =? c) || (is_lower c && (x =? c - 32))
                  || (is_upper c && (x =? c + 32))).

Fixpoint Lit (s : jsstring) : regex :=
  match s with [] => Empty | c :: s' => Seq (Chr c) (Lit s') end.
Fixpoint LitI (s : jsstring) : regex :=
  match s with [] => Empty | c :: s' => Seq (ChrI c) (LitI s') end.
Fixpoint Rep (n : nat) (r : regex) : regex :=                (* r{n} *)
  match n with O => Empty | S n' => Seq r (Rep n' r) end.

Record mstate : Type := MState {
  prev : option N;                 (* the code unit before the position *)
  rest : jsstring;                 (* the input from the position on *)
  caps : list (nat * jsstring);    (* captures, most recent first *)
}.

Definition advance (c : N) (tl : jsstring) (st : mstate) : mstate :=
  {| prev := Some c; rest := tl; caps := caps st |}.

Definition consumed (st st' : mstate) : jsstring :=
  take (length (rest st) - length (rest st')) (rest st).

Definition set_cap (n : nat) (s : jsstring) (st : mstate) : mstate :=
  {| prev := prev st; rest := rest st; caps := (n, s) :: caps st |}.

Definition is_word_opt (c : option N) : bool :=
  match c with Some x => is_word x | None => false end.

Definition progress_b (st st' : mstate) : bool :=
  (length (rest st') <? length (rest st))%nat.

Fixpoint rmatch (r : regex) (st : mstate) (k : mstate -> option mstate)
  : option mstate :=
  match r with
  | Empty => k st
  | Class p =>
      match rest st with
      | c :: tl => if p c then k (advance c tl st) else None
      | [] => None
      end
  | Seq r1 r2 => rmatch r1 st (fun st1 => rmatch r2 st1 k)
  | Alt r1 r2 =>
      match rmatch r1 st k with
      | Some res => Some res
      | None => rmatch r2 st k
      end
  | Star r1 =>
      (fix iter (fuel : nat) (st : mstate) {struct fuel} : option mstate :=
         match fuel with
         | O => k st
         | S fuel' =>
             match rmatch r1 st
                     (fun st1 => if progress_b st st1 then iter fuel' st1 else None) with
             | Some res => Some res
             | None => k st
             end
         end) (length (rest st)) st
  | Group n r1 => rmatch r1 st (fun st1 => k (set_cap n (consumed st st1) st1))
  | WordBoundary =>
      if xorb (is_word_opt (prev st)) (is_word_opt (head (rest st)))
      then k st else None
  | StartOfInput =>
      match prev st with None => k st | Some _ => None end
  end.

(** The match array: the index, the whole match and the groups. *)
Record mresult : Type := MResult {
  m_index : nat;
  m_whole : jsstring;
  m_caps : list (nat * jsstring);
}.

(** [m[n]] for a group: [None] is [undefined]. *)
Fixpoint lookup_cap (n : nat) (cs : list (nat * jsstring)) : option jsstring :=
  match cs with
  | [] => None
  | (i, s) :: cs' => if (i =? n)%nat then Some s else lookup_cap n cs'
  end.

Definition group (n : nat) (m : mresult) : option jsstring :=
  lookup_cap n (m_caps m).

Fixpoint search (r : regex) (before : option N) (idx : nat) (s : jsstring)
  : option mresult :=
  let st := {| prev := before; rest := s; caps := [] |} in
  match rmatch r st Some with
  | Some st' => Some {| m_index := idx; m_whole := consumed st st'; m_caps := caps st' |}
  | None =>
      match s with
      | [] => None
      | c :: s' => search r (Some c) (S idx) s'
      end
  end.

(** [s.match(r)] without the [g] flag. *)
Definition str_match (r : regex) (s : jsstring) : option mresult :=
  search r None O s.

(** [r.test(s)] *)
Definition test (r : regex) (s : jsstring) : bool :=
  match str_match r s with Some _ => true | None => false end.

(** ** The scraper: normalization

    [FacebookScraper.normalizeListingData] and [extractListingId]. *)

(** The raw record the in-page extractor returns.  A field that is
    [undefined] or [null] is [None]. *)
Record RawData : Type := mkRaw {
  raw_title : option jsstring;
  raw_price_raw : option jsstring;
  raw_url : option jsstring;
  raw_image_url : option jsstring;
  raw_listing_id : option jsstring;
  raw_location : option jsstring;
  raw_description : option jsstring;
}.

(** The object [normalizeListingData] returns, the argument of
    [CarListingModel.upsert]. *)
Record Listing : Type := mkListing {
  title : jsstring;
  price : jsnumber;
  currency : jsstring;
  year : option jsnumber;
  mileage : option jsstring;
  location : jsstring;
  source_url : option jsstring;
  listing_id : option jsstring;
  image_url : option jsstring;
  description : option jsstring;
}.

(** [/([A-Z]{3})?[\s₱$€£]*([\d,]+)/] *)
Definition is_price_sep (c : N) : bool :=
  is_space c || (c =? peso) || (c =? dollar) || (c =? euro) || (c =? pound).
Definition is_digit_or_comma (c : N) : bool := is_digit c || (c =? comma).

Definition price_re : regex :=
  Seq (Opt (Group 1 (Rep 3 (Class is_upper))))
      (Seq (Star (Class is_price_sep))
           (Group 2 (Plus (Class is_digit_or_comma)))).

(** [/\b(19|20)\d{2}\b/] *)
Definition year_re : regex :=
  Seq WordBoundary
      (Seq (Group 1 (Alt (Lit (js "19")) (Lit (js "20"))))
           (Seq (Rep 2 (Class is_digit)) WordBoundary)).

(** The mileage pattern of the source, flag [i]: group 1 is [\d+], an
    optional [,] or [.] and [\d*]; then [\s*]; group 2 is [k|km|miles]. *)
Definition mileage_re : regex :=
  Seq (Group 1 (Seq (Plus (Class is_digit))
                    (Seq (Opt (Class (fun c => (c =? comma) || (c =? 46))))
                         (Star (Class is_digit)))))
      (Seq (Star (Class is_space))
           (Group 2 (Alt (LitI (js "k")) (Alt (LitI (js "km")) (LitI (js "miles")))))).

(** [/\/item\/(\d+)/] *)
Definition item_re : regex :=
  Seq (Lit (js "/item/")) (Group 1 (Plus (Class is_digit))).

(** [s.replace(/,/g, '')] *)
Definition strip_commas (s : jsstring) : jsstring :=
  filter (fun c => c ≠ comma) s.

(** [extractListingId(url)]: a [TypeError] on an [undefined] url is
    caught and gives [null]. *)
Definition extractListingId (url : option jsstring) : option jsstring :=
  match url with
  | None => None
  | Some u =>
      match str_match item_re u with
      | Some m => group 1 m
      | None => None
      end
  end.

(** [normalizeListingData(rawData)].  Reading a property of [undefined]
    ([rawData.price_raw.match], [rawData.title.match]) throws a
    [TypeError], which the [catch] turns into [null]. *)
Definition normalizeListingData (rawData : RawData) : option Listing :=
  match raw_price_raw rawData with
  | None => None                                      (* TypeError, caught *)
  | Some price_raw =>
      match str_match price_re price_raw with
      | None => None                                  (* Could not parse price *)
      | Some priceMatch =>
          let currency := or_string (group 1 priceMatch) (js "PHP") in
          let price := parseFloat (strip_commas (default [] (group 2 priceMatch))) in
          match raw_title rawData with
          | None => None                              (* TypeError, caught *)
          | Some title =>
              let year :=
                match str_match year_re title with
                | Some yearMatch => Some (parseInt10 (m_whole yearMatch))
                | None => None
                end in
              let mileage :=
                match str_match mileage_re title with
                | Some mileageMatch => Some (m_whole mileageMatch)
                | None => None
                end in
              Some {| title := title;
                      price := price;
                      currency := currency;
                      year := year;
                      mileage := mileage;
                      location := or_string (raw_location rawData) (js "Manila");
                      source_url := raw_url rawData;
                      listing_id := extractListingId (raw_url rawData);
                      image_url := or_null (raw_image_url rawData);
                      description := or_null (raw_description rawData) |}
          end
      end
  end.

(** The normalization loop of [scrape]: a [null] result is skipped. *)
Definition normalizeAll (scrapedData : list RawData) : list Listing :=
  foldl (fun listings item =>
           match normalizeListingData item with
           | Some listing => listings ++ [listing]
           | None => listings
           end) [] scrapedData.

(** ** The scraper: in-page extraction

    The function [scrape] hands to [page.evaluate].  The page is given by
    its anchors in document order; for each anchor, the chain of its
    ancestors, and for an element the text of the [span]s and the [img]s
    below it, in document order. *)

Record Img : Type := mkImg {
  img_src : jsstring;                    (* the [src] property *)
  img_data_src : option jsstring;        (* [getAttribute('data-src')] *)
}.

Record Element : Type := mkElement {
  el_spans : list jsstring;              (* [textContent] of each span below *)
  el_imgs : list Img;
}.

Record Anchor : Type := mkAnchor {
  a_href_attr : jsstring;                (* the [href] attribute *)
  a_href : jsstring;                     (* the [href] property: the resolved URL *)
  a_ancestors : list Element;            (* [parentElement], nearest first *)
}.

Abbreviation Document := (list Anchor).

(** [document.querySelectorAll('a[href*="/marketplace/item/"]')] *)
Definition listingLinks (doc : Document) : list Anchor :=
  filter (fun a => includes (js "/marketplace/item/") (a_href_attr a) = true) doc.

Definition currency_prefix : regex :=
  Group 1 (Alt (Lit (js "PHP"))
          (Alt (Chr peso) (Alt (Chr dollar) (Alt (Chr euro) (Chr pound))))).

(** [/^(PHP|₱|\$|€|£)\s*[\d,]+/] *)
Definition price_prefixed_re : regex :=
  Seq StartOfInput
      (Seq currency_prefix
           (Seq (Star (Class is_space)) (Plus (Class is_digit_or_comma)))).

(** [/^[\d,]+\s*(PHP|₱)/] *)
Definition price_suffixed_re : regex :=
  Seq StartOfInput
      (Seq (Plus (Class is_digit_or_comma))
           (Seq (Star (Class is_space))
                (Group 1 (Alt (Lit (js "PHP")) (Chr peso))))).

(** [/^(PHP|₱|\$|€|£)/] *)
Definition starts_with_currency_re : regex := Seq StartOfInput currency_prefix.

(** [array.find(p)]: the first element satisfying [p]. *)
Fixpoint find_first {A : Type} (p : A -> bool) (l : list A) : option A :=
  match l with
  | [] => None
  | x :: l' => if p x then Some x else find_first p l'
  end.

(** [t !== priceText], where [priceText] may be [undefined]. *)
Definition differs (t : jsstring) (priceText : option jsstring) : bool :=
  match priceText with
  | Some p => negb (str_eqb t p)
  | None => true
  end.

(** The container: five times [parentElement]; [null] as soon as one is
    missing. *)
Definition container_of (linkElement : Anchor) : option Element :=
  a_ancestors linkElement !! 4%nat.

Definition imageUrl_of (container : Element) : option jsstring :=
  match el_imgs container with
  | imgElement :: _ =>
      if truthy (img_src imgElement) then Some (img_src imgElement)
      else img_data_src imgElement
  | [] => None
  end.

(** The state of the [forEach]: [results] and [seenIds]. *)
Record ExtractState : Type := mkExtract {
  results : list RawData;
  seenIds : gset (list N);
}.

(** One call of the [forEach] callback. *)
Definition extract_link (maxListings : Z) (acc : ExtractState) (linkElement : Anchor)
  : ExtractState :=
  match str_match item_re (a_href linkElement) with
  | None => acc
  | Some urlMatch =>
      let listingId := default [] (group 1 urlMatch) in
      if bool_decide (listingId ∈ seenIds acc) then acc (* Skip duplicates *)
      else
        let seen := {[ listingId ]} ∪ seenIds acc in
        let skip := {| results := results acc; seenIds := seen |} in
        if (maxListings <=? Z.of_nat (length (results acc)))%Z then skip
        else
          match container_of linkElement with
          | None => skip
          | Some container =>
              let textContent :=
                filter (fun t => (0 < length t)%nat) (map trim (el_spans container)) in
              let priceText :=
                find_first (fun t => test price_prefixed_re t || test price_suffixed_re t)
                           textContent in
              let titleText :=
                find_first (fun t => (10 <? length t)%nat
                                     && negb (includes [breadcrumb] t)
                                     && negb (test starts_with_currency_re t)
                                     && differs t priceText)
                           textContent in
              let imageUrl := imageUrl_of container in
              match priceText, titleText with
              | Some price_raw, Some title =>
                  if truthy (a_href linkElement) then
                    {| results := results acc ++
                         [ {| raw_title := Some title;
                              raw_price_raw := Some price_raw;
                              raw_url := Some (a_href linkElement);
                              raw_image_url := imageUrl;
                              raw_listing_id := Some listingId;
                              raw_location := None;
                              raw_description := None |} ];
                       seenIds := seen |}
                  else skip
              | _, _ => skip
              end
          end
  end.

(** The whole extractor: what [page.evaluate] returns. *)
Definition extract (maxListings : Z) (doc : Document) : list RawData :=
  results (foldl (extract_link maxListings)
                 {| results := []; seenIds := ∅ |}
                 (listingLinks doc)).

(** ** The table [car_listings]

    The migration [001_create_car_listings.sql]: the columns and their
    constraints, the trigger that refreshes [updated_at] before every
    update of a row.  Timestamps are natural numbers. *)

Record Row : Type := mkRow {
  row_id : N;                          (* SERIAL PRIMARY KEY *)
  row_title : jsstring;                (* VARCHAR(500) NOT NULL *)
  row_price : jsnumber;                (* NUMERIC(12, 2) NOT NULL *)
  row_currency : option jsstring;      (* VARCHAR(10) *)
  row_year : option N;                 (* INTEGER *)
  row_mileage : option jsstring;       (* VARCHAR(100) *)
  row_location : option jsstring;      (* VARCHAR(255) *)
  row_source_url : jsstring;           (* TEXT UNIQUE NOT NULL *)
  row_listing_id : option jsstring;    (* VARCHAR(100) *)
  row_image_url : option jsstring;     (* TEXT *)
  row_description : option jsstring;   (* TEXT *)
  row_created_at : N;
  row_updated_at : N;
  row_last_scraped_at : N;
  row_is_active : bool;                (* the soft delete flag *)
}.

Abbreviation Table := (list Row).

Inductive Violation : Type :=
| NotNull (column : string)
| TooLong (column : string)
| NumericOverflow
| InvalidInteger
| IntegerOutOfRange.

Inductive Error : Type :=
| TimeoutError                         (* puppeteer's navigation timeout *)
| BrowserError (msg : string)          (* any other failure of the browser *)
| DbError (v : Violation)              (* the statement was refused *)
| TxnAborted                           (* statement in a failed transaction *)
| TypeError                            (* a property read on [null] *)
| PlainError (msg : string)            (* [new Error(msg)] *)
| HttpError (status : N) (msg : string). (* an [Error] with [status] set *)

(** VARCHAR(n).  The length is taken in code units, which are never
    fewer than the characters the column counts, and trailing spaces
    count: the check is on the safe side of the column's, and a value
    that passes it is stored as it is. *)
Definition too_long (n : nat) (s : option jsstring) : bool :=
  match s with Some x => (n <? length x)%nat | None => false end.

(** NUMERIC(12, 2): ten digits before the point. *)
Definition numeric_fits (x : jsnumber) : bool :=
  match x with NaN => true | Num n => n <? 10 ^ 10 end.

Definition int4_max : N := 2147483647.

(** Conversion of a number to an INTEGER parameter.  The driver sends
    the number as its decimal string; from 10^21 on that string is in
    exponent notation, which is no integer at all. *)
Definition bind_integer (n : N) : option Violation :=
  if n <=? int4_max then None
  else if n <? 10 ^ 21 then Some IntegerOutOfRange
  else Some InvalidInteger.

(** Conversion of the [year] parameter to INTEGER. *)
Definition bind_year (y : option jsnumber) : Violation + option N :=
  match y with
  | None => inr None
  | Some NaN => inl InvalidInteger
  | Some (Num n) =>
      match bind_integer n with
      | None => inr (Some n)
      | Some v => inl v
      end
  end.

Definition first_violation (checks : list (bool * Violation)) : option Violation :=
  snd <$> find_first fst checks.

(** The constraints on the column values of a row. *)
Definition row_violation (r : Row) : option Violation :=
  first_violation
    [ (too_long 500 (Some (row_title r)), TooLong "title");
      (negb (numeric_fits (row_price r)), NumericOverflow);
      (too_long 10 (row_currency r), TooLong "currency");
      (too_long 100 (row_mileage r), TooLong "mileage");
      (too_long 255 (row_location r), TooLong "location");
      (too_long 100 (row_listing_id r), TooLong "listing_id") ].

(** The [BEFORE UPDATE] trigger [update_updated_at_column]. *)
Definition update_updated_at_column (now : N) (r : Row) : Row :=
  mkRow (row_id r) (row_title r) (row_price r) (row_currency r) (row_year r)
        (row_mileage r) (row_location r) (row_source_url r) (row_listing_id r)
        (row_image_url r) (row_description r)
        (row_created_at r) now (row_last_scraped_at r) (row_is_active r).

(** [UPDATE car_listings SET ... WHERE ... RETURNING ...]: every row the
    condition selects is replaced by what the trigger makes of its new
    version; the statement is refused as a whole when a new version is.
    The result is the new table and the rows of [RETURNING]. *)
Fixpoint sql_update (now : N) (where_ : Row -> bool) (set : Row -> Violation + Row)
    (t : Table) : Violation + (Table * list Row) :=
  match t with
  | [] => inr ([], [])
  | r :: t' =>
      if where_ r then
        match set r with
        | inl v => inl v
        | inr r' =>
            match sql_update now where_ set t' with
            | inl v => inl v
            | inr (t'', rows) =>
                inr (update_updated_at_column now r' :: t'',
                     update_updated_at_column now r' :: rows)
            end
        end
      else
        match sql_update now where_ set t' with
        | inl v => inl v
        | inr (t'', rows) => inr (r :: t'', rows)
        end
  end.

(** ** [CarListingModel]: the statements *)

(** The row [INSERT INTO car_listings (...) VALUES ($1, ..., $10,
    CURRENT_TIMESTAMP)] proposes; the other columns take their defaults. *)
Definition inserted_row (now new_id : N) (l : Listing) (url : jsstring) (y : option N) : Row :=
  {| row_id := new_id;
     row_title := title l;
     row_price := price l;
     row_currency := Some (currency l);
     row_year := y;
     row_mileage := mileage l;
     row_location := Some (location l);
     row_source_url := url;
     row_listing_id := listing_id l;
     row_image_url := image_url l;
     row_description := description l;
     row_created_at := now;
     row_updated_at := now;
     row_last_scraped_at := now;
     row_is_active := true |}.

(** [ON CONFLICT (source_url) DO UPDATE SET ...]: the existing row takes
    the proposed values; [id], [source_url] and [created_at] stay. *)
Definition conflict_update (now : N) (excluded : Row) (r : Row) : Row :=
  {| row_id := row_id r;
     row_title := row_title excluded;
     row_price := row_price excluded;
     row_currency := row_currency excluded;
     row_year := row_year excluded;
     row_mileage := row_mileage excluded;
     row_location := row_location excluded;
     row_source_url := row_source_url r;
     row_listing_id := row_listing_id excluded;
     row_image_url := row_image_url excluded;
     row_description := row_description excluded;
     row_created_at := row_created_at r;
     row_updated_at := row_updated_at r;
     row_last_scraped_at := now;
     row_is_active := true |}.

Definition same_url (url : jsstring) (r : Row) : bool := str_eqb (row_source_url r) url.

(** The values of a listing against the sizes of their columns. *)
Definition listing_fits (l : Listing) : option Violation :=
  first_violation
    [ (too_long 500 (Some (title l)), TooLong "title");
      (negb (numeric_fits (price l)), NumericOverflow);
      (too_long 10 (Some (currency l)), TooLong "currency");
      (too_long 100 (mileage l), TooLong "mileage");
      (too_long 255 (Some (location l)), TooLong "location");
      (too_long 100 (listing_id l), TooLong "listing_id") ].

(** The upsert statement on a table: the new table and [rows[0]], or the
    violation that refuses it.  [new_id] is the value drawn from the
    sequence of [id].  The parameters are bound and converted to the
    types of their columns before the statement runs; the NOT NULL
    constraint is checked when it runs. *)
Definition upsert_stmt (now new_id : N) (l : Listing) (t : Table)
  : Violation + (Table * Row) :=
  match bind_year (year l) with
  | inl v => inl v
  | inr y =>
      match listing_fits l with
      | Some v => inl v
      | None =>
          match source_url l with
          | None => inl (NotNull "source_url")
          | Some url =>
              let excluded := inserted_row now new_id l url y in
              if existsb (same_url url) t then
                match sql_update now (same_url url)
                        (fun r => inr (conflict_update now excluded r)) t with
                | inl v => inl v
                | inr (t', rows) => inr (t', default excluded (head rows))
                end
              else inr (t ++ [excluded], excluded)
          end
      end
  end.

(** A statement refused for a NULL has run: the id it drew from the
    sequence is lost.  One refused while its parameters are bound or
    converted has drawn nothing. *)
Definition draws_id (v : Violation) : bool :=
  match v with NotNull _ => true | _ => false end.

(** The argument [updates] of [update]: for each key of the object, in
    order, the column it names and a value of the type of that column
    ([None] is [null]); [UOther] is a key outside [allowedFields]. *)
Inductive Update : Type :=
| UTitle (v : option jsstring)
| UPrice (v : option jsnumber)
| UCurrency (v : option jsstring)
| UYear (v : option N)
| UMileage (v : option jsstring)
| ULocation (v : option jsstring)
| UDescription (v : option jsstring)
| UImageUrl (v : option jsstring)
| UOther (key : string).

(** [allowedFields.includes(key)] *)
Definition allowed (u : Update) : bool :=
  match u with UOther _ => false | _ => true end.

(** One [SET field = $n] on a row; a [null] for a NOT NULL column is
    refused. *)
Definition assign (u : Update) (r : Row) : Violation + Row :=
  let upd title price currency year mileage location image_url description :=
    mkRow (row_id r) title price currency year mileage location (row_source_url r)
          (row_listing_id r) image_url description
          (row_created_at r) (row_updated_at r) (row_last_scraped_at r) (row_is_active r) in
  let keep := upd (row_title r) (row_price r) (row_currency r) (row_year r) (row_mileage r)
                  (row_location r) (row_image_url r) (row_description r) in
  match u with
  | UTitle None => inl (NotNull "title")
  | UTitle (Some v) =>
      inr (upd v (row_price r) (row_currency r) (row_year r) (row_mileage r)
               (row_location r) (row_image_url r) (row_description r))
  | UPrice None => inl (NotNull "price")
  | UPrice (Some v) =>
      inr (upd (row_title r) v (row_currency r) (row_year r) (row_mileage r)
               (row_location r) (row_image_url r) (row_description r))
  | UCurrency v =>
      inr (upd (row_title r) (row_price r) v (row_year r) (row_mileage r)
               (row_location r) (row_image_url r) (row_description r))
  | UYear v =>
      inr (upd (row_title r) (row_price r) (row_currency r) v (row_mileage r)
               (row_location r) (row_image_url r) (row_description r))
  | UMileage v =>
      inr (upd (row_title r) (row_price r) (row_currency r) (row_year r) v
               (row_location r) (row_image_url r) (row_description r))
  | ULocation v =>
      inr (upd (row_title r) (row_price r) (row_currency r) (row_year r) (row_mileage r)
               v (row_image_url r) (row_description r))
  | UImageUrl v =>
      inr (upd (row_title r) (row_price r) (row_currency r) (row_year r) (row_mileage r)
               (row_location r) v (row_description r))
  | UDescription v =>
      inr (upd (row_title r) (row_price r) (row_currency r) (row_year r) (row_mileage r)
               (row_location r) (row_image_url r) v)
  | UOther _ => inr keep
  end.

(** All the [SET] clauses on a row, then its constraints. *)
Fixpoint assign_all (fields : list Update) (r : Row) : Violation + Row :=
  match fields with
  | [] => match row_violation r with Some v => inl v | None => inr r end
  | u :: fields' =>
      match assign u r with
      | inl v => inl v
      | inr r' => assign_all fields' r'
      end
  end.

Definition set_inactive (r : Row) : Row :=
  mkRow (row_id r) (row_title r) (row_price r) (row_currency r) (row_year r)
        (row_mileage r) (row_location r) (row_source_url r) (row_listing_id r)
        (row_image_url r) (row_description r)
        (row_created_at r) (row_updated_at r) (row_last_scraped_at r) false.

Definition has_id (id : N) (r : Row) : bool := row_id r =? id.
Definition active_with_id (id : N) (r : Row) : bool := has_id id r && row_is_active r.

(** What the database checks of the parameters of [update] before it
    reads a row.  A number bound to an INTEGER parameter must be one: the
    values in the order of the fields, then the id. *)
Definition value_bind (u : Update) : option Violation :=
  match u with
  | UYear (Some y) => bind_integer y
  | _ => None
  end.

(** A value assigned to a column of limited size must fit it, whatever
    the rows: the conversion of a parameter is done once, when the
    statement is planned. *)
Definition value_fits (u : Update) : option Violation :=
  match u with
  | UTitle v => if too_long 500 v then Some (TooLong "title") else None
  | UPrice (Some p) => if numeric_fits p then None else Some NumericOverflow
  | UCurrency v => if too_long 10 v then Some (TooLong "currency") else None
  | UMileage v => if too_long 100 v then Some (TooLong "mileage") else None
  | ULocation v => if too_long 255 v then Some (TooLong "location") else None
  | _ => None
  end.

Definition first_some {A : Type} (l : list (option A)) : option A :=
  find_first (fun x => match x with Some _ => true | None => false end) l ≫= id.

(** The violation that refuses [UPDATE ... SET fields WHERE id = $n]
    before any row is read. *)
Definition update_refused (id : N) (fields : list Update) : option Violation :=
  first_some (map value_bind fields ++ [bind_integer id] ++ map value_fits fields).

(** ** Effects

    The pipeline runs against a browser and a database.  Both are part of
    the world the program threads through its calls; a call returns or
    throws.  The calls made to the browser and to the database are
    recorded in order. *)

Inductive TxnCommand : Type := BEGIN | COMMIT | ROLLBACK.

Inductive Event : Type :=
| Launch                               (* puppeteer.launch *)
| NewPage
| SetViewport
| SetExtraHTTPHeaders
| Goto (timeout : Z)                   (* page.goto *)
| WaitForSelector
| Sleep (ms : N)                       (* setTimeout *)
| EvaluateScroll                       (* page.evaluate, in autoScroll *)
| EvaluateExtract (maxListings : Z)    (* page.evaluate, the extractor *)
| BrowserClose                         (* browser.close *)
| GetClient                            (* db.getClient *)
| ClientQuery (c : TxnCommand)         (* client.query *)
| DbQuery                              (* db.query: a statement on the pool *)
| ClientStatement                      (* client.query with a statement *)
| Release.                             (* client.release *)

(** The configuration the scraper reads and the behaviour of the browser
    during one run: for each call, whether it throws.  [on_goto n] is the
    fate of the call number [n] of [page.goto]; [on_extract] is the page
    the extractor sees. *)
Record Env : Type := mkEnv {
  cfg_timeout : Z;
  cfg_maxListings : Z;
  on_launch : option Error;
  on_newPage : option Error;
  on_setViewport : option Error;
  on_setExtraHTTPHeaders : option Error;
  on_goto : nat -> option Error;
  on_waitForSelector : option Error;
  on_scroll : option Error;
  on_extract : Error + Document;
  on_close : option Error;
}.

(** The database: the committed table and the sequence of [id]. *)
Record Db : Type := mkDb {
  table : Table;
  next_id : N;
}.

(** The transaction of the client [bulkUpsert] checks out: the start time
    and the statements it has made so far, which reach the table at
    [COMMIT]. *)
Inductive Txn : Type :=
| NoTxn
| Active (start : N) (writes : list (N * Listing))
| Failed.

Record World : Type := mkWorld {
  this_browser : bool;                 (* [this.browser] is set *)
  this_page : bool;                    (* [this.page] is set *)
  gotos : nat;                         (* calls of [page.goto] so far *)
  db : Db;
  txn : Txn;
  clock : N;                           (* CURRENT_TIMESTAMP *)
  trace : list Event;
}.

Inductive Result (A : Type) : Type :=
| Ok (a : A)
| Thrown (e : Error).
Arguments Ok {A} a.
Arguments Thrown {A} e.

Definition M (A : Type) : Type := World -> Result A * World.

Definition ret {A} (a : A) : M A := fun w => (Ok a, w).
Definition throw {A} (e : Error) : M A := fun w => (Thrown e, w).
Definition bind {A B} (m : M A) (k : A -> M B) : M B :=
  fun w => match m w with
           | (Ok a, w') => k a w'
           | (Thrown e, w') => (Thrown e, w')
           end.

Notation "x <- m ;; k" := (bind m (fun x => k))
  (at level 100, m at next level, right associativity).
Notation "m ;;; k" := (bind m (fun _ => k))
  (at level 100, right associativity).

(** [try { m } catch (error) { h error }] *)
Definition try_catch {A} (m : M A) (h : Error -> M A) : M A :=
  fun w => match m w with
           | (Ok a, w') => (Ok a, w')
           | (Thrown e, w') => h e w'
           end.

(** [try { m } finally { f }]: [f] runs on both exits; what it throws
    replaces the outcome of [m]. *)
Definition try_finally {A} (m : M A) (f : M unit) : M A :=
  fun w => match m w with
           | (r, w') =>
               match f w' with
               | (Ok _, w'') => (r, w'')
               | (Thrown e, w'') => (Thrown e, w'')
               end
           end.

Definition modify (f : World -> World) : M unit := fun w => (Ok tt, f w).
Definition gets {A} (f : World -> A) : M A := fun w => (Ok (f w), w).

Definition emit (e : Event) : M unit :=
  modify (fun w => mkWorld (this_browser w) (this_page w) (gotos w) (db w) (txn w)
                           (clock w) (trace w ++ [e])).
Definition set_browser (b : bool) : M unit :=
  modify (fun w => mkWorld b (this_page w) (gotos w) (db w) (txn w) (clock w) (trace w)).
Definition set_page (b : bool) : M unit :=
  modify (fun w => mkWorld (this_browser w) b (gotos w) (db w) (txn w) (clock w) (trace w)).
Definition count_goto : M unit :=
  modify (fun w => mkWorld (this_browser w) (this_page w) (S (gotos w)) (db w) (txn w)
                           (clock w) (trace w)).
Definition set_db (d : Db) : M unit :=
  modify (fun w => mkWorld (this_browser w) (this_page w) (gotos w) d (txn w)
                           (clock w) (trace w)).
Definition set_txn (x : Txn) : M unit :=
  modify (fun w => mkWorld (this_browser w) (this_page w) (gotos w) (db w) x
                           (clock w) (trace w)).
(** Time passes: the next statement sees a later CURRENT_TIMESTAMP. *)
Definition tick : M unit :=
  modify (fun w => mkWorld (this_browser w) (this_page w) (gotos w) (db w) (txn w)
                           (clock w + 1) (trace w)).

(** A call to the outside that throws or returns nothing. *)
Definition call (e : Event) (fate : option Error) : M unit :=
  emit e ;;;
  match fate with
  | Some err => throw err
  | None => ret tt
  end.

(** [for (const x of l) { ... }], collecting what the body returns. *)
Fixpoint for_each {A B} (l : list A) (body : A -> M B) : M (list B) :=
  match l with
  | [] => ret []
  | x :: l' => y <- body x ;; ys <- for_each l' body ;; ret (y :: ys)
  end.

(** ** [config/database.js] *)

(** [db.query(text, params)] with the upsert statement: [pool.query]
    runs it on a connection of the pool, outside any transaction, so it
    is committed when it returns. *)
Definition db_query_upsert (l : Listing) : M Row :=
  emit DbQuery ;;;
  now <- gets clock ;;
  tick ;;;
  d <- gets db ;;
  match upsert_stmt now (next_id d) l (table d) with
  | inl v =>
      (if draws_id v then set_db (mkDb (table d) (next_id d + 1)) else ret tt) ;;;
      throw (DbError v)
  | inr (t', row) => set_db (mkDb t' (next_id d + 1)) ;;; ret row
  end.

(** [db.getClient()]: a connection of its own, with no transaction. *)
Definition getClient : M unit := emit GetClient ;;; set_txn NoTxn.
Definition release : M unit := emit Release.

(** The table a transaction leaves at [COMMIT]. *)
Definition apply_writes (start : N) (writes : list (N * Listing)) (t : Table) : Table :=
  foldl (fun t w => match upsert_stmt start w.1 w.2 t with
                    | inr (t', _) => t'
                    | inl _ => t
                    end) t writes.

(** [client.query('BEGIN' | 'COMMIT' | 'ROLLBACK')] *)
Definition client_query (c : TxnCommand) : M unit :=
  emit (ClientQuery c) ;;;
  x <- gets txn ;;
  match c, x with
  | BEGIN, NoTxn => now <- gets clock ;; tick ;;; set_txn (Active now [])
  | BEGIN, _ => ret tt
  | COMMIT, Active start writes =>
      d <- gets db ;;
      set_db (mkDb (apply_writes start writes (table d)) (next_id d)) ;;;
      set_txn NoTxn
  | COMMIT, _ => set_txn NoTxn
  | ROLLBACK, _ => set_txn NoTxn
  end.

(** [client.query(text, params)] with the upsert statement: inside a
    transaction the statement is held back until [COMMIT]; a refused
    statement fails the transaction.  No function of the source calls
    it; [upsertBatch_in_transaction] below does. *)
Definition client_query_upsert (l : Listing) : M Row :=
  emit ClientStatement ;;;
  x <- gets txn ;;
  d <- gets db ;;
  match x with
  | NoTxn =>
      now <- gets clock ;;
      tick ;;;
      match upsert_stmt now (next_id d) l (table d) with
      | inl v =>
          (if draws_id v then set_db (mkDb (table d) (next_id d + 1)) else ret tt) ;;;
          throw (DbError v)
      | inr (t', row) => set_db (mkDb t' (next_id d + 1)) ;;; ret row
      end
  | Active start writes =>
      match upsert_stmt start (next_id d) l (apply_writes start writes (table d)) with
      | inl v =>
          (if draws_id v then set_db (mkDb (table d) (next_id d + 1)) else ret tt) ;;;
          set_txn Failed ;;; throw (DbError v)
      | inr (_, row) =>
          set_txn (Active start (writes ++ [(next_id d, l)])) ;;;
          set_db (mkDb (table d) (next_id d + 1)) ;;;
          ret row
      end
  | Failed => throw TxnAborted
  end.

(** ** [models/car-listing.js] *)

Module CarListingModel.

(** [upsert(listing)]: the statement goes through [db.query].  The
    default of the destructuring, [currency = 'PHP'], applies to an
    [undefined] field only; a [Listing] always has its currency. *)
Definition upsert (listing : Listing) : M Row :=
  try_catch (db_query_upsert listing) (fun error => throw error).

(** [bulkUpsert(listings)] *)
Definition bulkUpsert (listings : list Listing) : M (list Row) :=
  getClient ;;;
  try_finally
    (try_catch
       (client_query BEGIN ;;;
        results <- for_each listings upsert ;;
        client_query COMMIT ;;;
        ret results)
       (fun error => client_query ROLLBACK ;;; throw error))
    release.

(** [findById(id)]: [rows[0] || null] of the SELECT.  The id is bound
    to an INTEGER parameter. *)
Definition findById (id : N) : M (option Row) :=
  emit DbQuery ;;;
  d <- gets db ;;
  match bind_integer id with
  | Some v => throw (DbError v)
  | None => ret (head (filter (fun r => active_with_id id r = true) (table d)))
  end.

(** [update(id, updates)] *)
Definition update (id : N) (updates : list Update) : M (option Row) :=
  let fields := filter (fun u => allowed u = true) updates in
  if (length fields =? 0)%nat then throw (PlainError "No valid fields to update")
  else
    emit DbQuery ;;;
    now <- gets clock ;;
    tick ;;;
    d <- gets db ;;
    match update_refused id fields with
    | Some v => throw (DbError v)
    | None =>
        match sql_update now (active_with_id id) (assign_all fields) (table d) with
        | inl v => throw (DbError v)
        | inr (t', rows) => set_db (mkDb t' (next_id d)) ;;; ret (head rows)
        end
    end.

(** [delete(id)]: [rowCount > 0] of the UPDATE.  The id is bound to an
    INTEGER parameter. *)
Definition delete (id : N) : M bool :=
  emit DbQuery ;;;
  now <- gets clock ;;
  tick ;;;
  d <- gets db ;;
  match bind_integer id with
  | Some v => throw (DbError v)
  | None =>
      match sql_update now (has_id id) (fun r => inr (set_inactive r)) (table d) with
      | inl v => throw (DbError v)
      | inr (t', rows) => set_db (mkDb t' (next_id d)) ;;; ret (0 <? length rows)%nat
      end
  end.

End CarListingModel.

(** ** [scrapers/facebook-scraper.js]: the run *)

Module FacebookScraper.

(** [new FacebookScraper()] *)
Definition new : M unit := set_browser false ;;; set_page false.

Definition initialize (env : Env) : M unit :=
  try_catch
    (call Launch (on_launch env) ;;;
     set_browser true ;;;
     call NewPage (on_newPage env) ;;;
     set_page true ;;;
     call SetViewport (on_setViewport env) ;;;
     call SetExtraHTTPHeaders (on_setExtraHTTPHeaders env))
    (fun error => throw error).

(** [this.page.goto(url, {waitUntil, timeout})] *)
Definition goto (env : Env) : M unit :=
  n <- gets gotos ;;
  count_goto ;;;
  call (Goto (cfg_timeout env)) (on_goto env n).

Definition autoScroll (env : Env) : M unit :=
  call EvaluateScroll (on_scroll env) ;;;
  call (Sleep 2000) None.

(** [this.page.evaluate(extractor, config.scraper.maxListings)] *)
Definition evaluate (env : Env) : M (list RawData) :=
  emit (EvaluateExtract (cfg_maxListings env)) ;;;
  match on_extract env with
  | inl err => throw err
  | inr doc => ret (extract (cfg_maxListings env) doc)
  end.

Definition cleanup (env : Env) : M unit :=
  b <- gets this_browser ;;
  if b then call BrowserClose (on_close env) else ret tt.

Definition scrape (env : Env) : M (list Listing) :=
  try_finally
    (try_catch
       (initialize env ;;;
        goto env ;;;
        try_catch (call WaitForSelector (on_waitForSelector env)) (fun _ => ret tt) ;;;
        call (Sleep 5000) None ;;;
        autoScroll env ;;;
        scrapedData <- evaluate env ;;
        ret (normalizeAll scrapedData))
       (fun error => throw error))
    (cleanup env).

End FacebookScraper.

(** What [scrapeAndStore] returns. *)
Record ScrapeResult : Type := mkScrapeResult {
  success : bool;
  count : nat;
  listings : option (list Row);        (* absent when nothing was scraped *)
}.

Definition scrapeAndStore (env : Env) : M ScrapeResult :=
  FacebookScraper.new ;;;
  try_catch
    (listings <- FacebookScraper.scrape env ;;
     if (length listings =? 0)%nat then
       ret {| success := true; count := 0; listings := None |}
     else
       stored <- CarListingModel.bulkUpsert listings ;;
       ret {| success := true; count := length stored; listings := Some stored |})
    (fun error => throw error).

(** ** [services/car-listing-service.js] *)

Module CarListingService.

(** [validateUpdateData(updates)]; [currentYear] is
    [new Date().getFullYear()]. *)
Definition validate_one (currentYear : N) (u : Update) : option Error :=
  match u with
  | UPrice (Some (Num _)) => None
  | UPrice _ => Some (PlainError "Invalid price value")
  | UYear (Some y) =>
      if (y <? 1900) || (currentYear + 1 <? y)
      then Some (PlainError "Invalid year value") else None
  | UYear None => Some (PlainError "Invalid year value")
  | UTitle (Some t) =>
      if (length (trim t) =? 0)%nat then Some (PlainError "Title cannot be empty")
      else None
  | UTitle None => Some TypeError
  | _ => None
  end.

(** The checks run in the order price, year, title. *)
Definition validateUpdateData (currentYear : N) (updates : list Update) : M unit :=
  let is_price u := match u with UPrice _ => true | _ => false end in
  let is_year u := match u with UYear _ => true | _ => false end in
  let is_title u := match u with UTitle _ => true | _ => false end in
  let check p :=
    match find_first p updates ≫= validate_one currentYear with
    | Some err => throw err
    | None => ret tt
    end in
  check is_price ;;; check is_year ;;; check is_title.

Definition getListingById (id : N) : M Row :=
  try_catch
    (listing <- CarListingModel.findById id ;;
     match listing with
     | None => throw (HttpError 404 "Listing not found")
     | Some row => ret row
     end)
    (fun error => throw error).

Definition updateListing (currentYear : N) (id : N) (updates : list Update) : M Row :=
  try_catch
    (validateUpdateData currentYear updates ;;;
     listing <- CarListingModel.update id updates ;;
     match listing with
     | None => throw (HttpError 404 "Listing not found or inactive")
     | Some row => ret row
     end)
    (fun error => throw error).

Definition deleteListing (id : N) : M bool :=
  try_catch
    (deleted <- CarListingModel.delete id ;;
     if deleted then ret true
     else throw (HttpError 404 "Listing not found"))
    (fun error => throw error).

(** [triggerScraping()]: any failure becomes one generic error. *)
Definition triggerScraping (env : Env) : M nat :=
  try_catch
    (result <- scrapeAndStore env ;; ret (count result))
    (fun _ => throw (PlainError "Scraping process failed")).

End CarListingService.

(** * Statements

    The definitions the properties below are stated with: how the
    outcome of a run is read, sample data, and the readings of the design
    document that the code is compared with. *)

Definition result_of {A} (x : Result A * World) : Result A := x.1.
Definition world_of {A} (x : Result A * World) : World := x.2.

(** The visible store: the committed table. *)
Definition stored {A} (x : Result A * World) : Table := table (db (world_of x)).

Definition empty_world : World :=
  {| this_browser := false; this_page := false; gotos := 0;
     db := {| table := []; next_id := 1 |}; txn := NoTxn; clock := 0; trace := [] |}.

Definition world_with (t : Table) (now : N) : World :=
  {| this_browser := false; this_page := false; gotos := 0;
     db := {| table := t; next_id := 1 + N.of_nat (length t) |};
     txn := NoTxn; clock := now; trace := [] |}.

Definition sample_row (id : N) (url : jsstring) (updated : N) (active : bool) : Row :=
  {| row_id := id; row_title := js "2018 Toyota Vios 1.3 E"; row_price := Num 350000;
     row_currency := Some (js "PHP"); row_year := Some 2018; row_mileage := None;
     row_location := Some (js "Manila"); row_source_url := url;
     row_listing_id := Some (js "111"); row_image_url := None; row_description := None;
     row_created_at := 0; row_updated_at := updated; row_last_scraped_at := 0;
     row_is_active := active |}.

Definition url1 : jsstring := js "https://www.facebook.com/marketplace/item/111/".
Definition url2 : jsstring := js "https://www.facebook.com/marketplace/item/222/".


(** Every row with the id is soft-deleted, and there is one. *)
Definition soft_deleted (id : N) (t : Table) : Prop :=
  (exists r, r ∈ t /\ row_id r = id)
  /\ (forall r, r ∈ t -> row_id r = id -> row_is_active r = false).

Definition deleted_world : World := world_with [sample_row 1 url1 0 false] 5.

Definition raw_of (t p u : jsstring) : RawData :=
  {| raw_title := Some t; raw_price_raw := Some p; raw_url := Some u;
     raw_image_url := None; raw_listing_id := None;
     raw_location := None; raw_description := None |}.

(** Two scraped candidates; the price of the second does not fit
    NUMERIC(12, 2). *)
Definition overflowing_batch : list Listing :=
  normalizeAll
    [ raw_of (js "2018 Toyota Vios 1.3 E") (peso :: js "350,000") url1;
      raw_of (js "2020 Honda Civic RS Turbo") (peso :: js "10,000,000,000") url2 ].

(** The batch as the design document words it, for comparison with
    [CarListingModel.bulkUpsert]: begin a transaction, upsert each listing
    in it, commit only if every upsert succeeds, roll back otherwise. *)
Definition upsertBatch_in_transaction (listings : list Listing) : M (list Row) :=
  getClient ;;;
  try_finally
    (try_catch
       (client_query BEGIN ;;;
        results <- for_each listings client_query_upsert ;;
        client_query COMMIT ;;;
        ret results)
       (fun error => client_query ROLLBACK ;;; throw error))
    release.

(** Unfolds a run of the pipeline and follows the fate of each call. *)
Ltac run_pipeline :=
  unfold scrapeAndStore, FacebookScraper.scrape, FacebookScraper.new,
    FacebookScraper.initialize, FacebookScraper.goto, FacebookScraper.autoScroll,
    FacebookScraper.evaluate, FacebookScraper.cleanup,
    try_finally, try_catch, call, bind, emit, gets, set_browser, set_page,
    count_goto, modify, throw, ret, result_of, world_of;
  cbn [fst snd this_browser this_page gotos db txn clock trace].

Ltac step := cbn [fst snd this_browser this_page gotos db txn clock trace].

Ltac follow fate :=
  let E := fresh "E" in
  destruct fate eqn:E;
  cbn [fst snd this_browser this_page gotos db txn clock trace].

(** The browser does all that is asked of it, [page.goto] included. *)
Definition browser_cooperates (env : Env) (w : World) : Prop :=
  on_launch env = None /\ on_newPage env = None /\ on_setViewport env = None
  /\ on_setExtraHTTPHeaders env = None /\ on_goto env (gotos w) = None
  /\ on_scroll env = None /\ on_close env = None.

(** The browser starts, and the first [page.goto] times out. *)
Definition navigation_times_out (env : Env) (w : World) : Prop :=
  on_launch env = None /\ on_newPage env = None /\ on_setViewport env = None
  /\ on_setExtraHTTPHeaders env = None /\ on_goto env (gotos w) = Some TimeoutError
  /\ on_close env = None.

Definition quiet_env (goto_fate : nat -> option Error) (doc : Document) : Env :=
  {| cfg_timeout := 30000; cfg_maxListings := 50;
     on_launch := None; on_newPage := None; on_setViewport := None;
     on_setExtraHTTPHeaders := None; on_goto := goto_fate;
     on_waitForSelector := None; on_scroll := None;
     on_extract := inr doc; on_close := None |}.

(** The first navigation times out, a second one would succeed. *)
Definition slow_once (n : nat) : option Error :=
  match n with O => Some TimeoutError | S _ => None end.

(** The retry policy as the design document words it: after a timeout,
    [page.goto] is called a second time, and the run fails with the
    timeout only if that second call times out as well. *)
Definition retries_navigation_once (env : Env) (w : World) : Prop :=
  on_goto env (gotos w) = Some TimeoutError ->
  gotos (world_of (scrapeAndStore env w)) = (gotos w + 2)%nat
  /\ (result_of (scrapeAndStore env w) = Thrown TimeoutError ->
      on_goto env (S (gotos w)) = Some TimeoutError).

(** A page with anchors, none of which links to a marketplace item. *)
Definition page_without_items : Document :=
  [ {| a_href_attr := js "/marketplace/profile/5";
       a_href := js "https://www.facebook.com/marketplace/profile/5";
       a_ancestors := [] |};
    {| a_href_attr := js "/help"; a_href := js "https://www.facebook.com/help";
       a_ancestors := [] |} ].


(** The listing id the extractor reads off an anchor. *)
Definition link_id (a : Anchor) : option jsstring :=
  match str_match item_re (a_href a) with
  | Some urlMatch => Some (default [] (group 1 urlMatch))
  | None => None
  end.

(** The state of the loop after the anchors [processed]. *)
Record extract_inv (processed : list Anchor) (st : ExtractState) : Prop := {
  inv_seen : forall id, id ∈ seenIds st <-> exists a, a ∈ processed /\ link_id a = Some id;
  inv_nodup : NoDup (map raw_listing_id (results st));
  inv_ids : forall c, c ∈ results st ->
              exists id, raw_listing_id c = Some id /\ id ∈ seenIds st;
  inv_first : forall c, c ∈ results st ->
              exists before a after,
                processed = before ++ a :: after
                /\ raw_listing_id c = link_id a
                /\ raw_url c = Some (a_href a)
                /\ forall a', a' ∈ before -> link_id a' <> link_id a;
}.

Ltac bool_to_prop :=
  repeat match goal with
         | H : _ && _ = true |- _ => apply andb_true_iff in H; destruct H
         | H : _ || _ = true |- _ => apply orb_true_iff in H
         | H : (_ <=? _) = true |- _ => apply N.leb_le in H
         | H : (_ =? _) = true |- _ => apply N.eqb_eq in H
         | H : (_ <=? _) = false |- _ => apply N.leb_gt in H
         | H : (_ =? _) = false |- _ => apply N.eqb_neq in H
         end.

(** A results page with two cards; the price span of the second holds
    the peso sign and a comma, no digit. *)
Definition comma_page : Document :=
  let wrapper := {| el_spans := []; el_imgs := [] |} in
  [ {| a_href_attr := js "/marketplace/item/111/";
       a_href := url1;
       a_ancestors :=
         [ wrapper; wrapper; wrapper; wrapper;
           {| el_spans := [peso :: js "350,000"; js "2018 Toyota Vios 1.3 E"];
              el_imgs := [] |} ] |};
    {| a_href_attr := js "/marketplace/item/222/";
       a_href := url2;
       a_ancestors :=
         [ wrapper; wrapper; wrapper; wrapper;
           {| el_spans := [[peso; comma]; js "2020 Honda Civic RS Turbo"];
              el_imgs := [] |} ] |} ].

(** A candidate whose title starts with the year [y], written with four
    digits. *)
Definition year_digits (y : N) : jsstring :=
  [48 + y / 1000; 48 + (y / 100) mod 10; 48 + (y / 10) mod 10; 48 + y mod 10].

Definition candidate_of_year (y : N) : RawData :=
  raw_of (year_digits y ++ js " Toyota Corolla") (peso :: js "350,000") url1.

Definition year_kept (y : N) : bool :=
  match normalizeListingData (candidate_of_year y) with
  | Some l => match year l with Some (Num y') => y' =? y | _ => false end
  | None => false
  end.

(** The year as the design document bounds it, against the current
    year. *)
Definition year_plausible (currentYear : N) (l : Listing) : Prop :=
  year l = None \/ exists y, year l = Some (Num y) /\ 1900 <= y <= currentYear + 1.

Ltac class_cases :=
  unfold is_price_sep, is_digit_or_comma, is_space, is_upper, is_digit,
    peso, dollar, euro, pound, comma in *;
  repeat match goal with
         | H : _ && _ = true |- _ => apply andb_true_iff in H; destruct H
         | H : _ || _ = true |- _ => apply orb_true_iff in H; destruct H
         | H : (_ <=? _) = true |- _ => apply N.leb_le in H
         | H : (_ =? _) = true |- _ => apply N.eqb_eq in H
         end.

(** The state after the code units [run], with [tl] left to read. *)
Definition moved (run tl : jsstring) (st : mstate) : mstate :=
  {| prev := match last run with Some c => Some c | None => prev st end;
     rest := tl;
     caps := caps st |}.

(** A price text of the shape the design document describes: an optional
    currency code, separators, a group of digits and commas with a digit
    in it, and a remainder that does not continue the group. *)
Record price_shape (code seps ds tail : jsstring) : Prop := {
  code_shape : code = [] \/ (length code = 3%nat /\ Forall (fun c => is_upper c = true) code);
  seps_shape : Forall (fun c => is_price_sep c = true) seps;
  ds_shape : Forall (fun c => is_digit_or_comma c = true) ds;
  ds_digit : exists d, d ∈ ds /\ is_digit d = true;
  tail_shape : forall c tl', tail = c :: tl' -> is_digit_or_comma c = false;
}.

Definition code_caps (code : jsstring) : list (nat * jsstring) :=
  match code with [] => [] | _ => [(1%nat, code)] end.

(** * More of the code: definitions for the further properties *)

(** A pattern without a capturing group. *)
Fixpoint group_free (r : regex) : bool :=
  match r with
  | Seq r1 r2 | Alt r1 r2 => group_free r1 && group_free r2
  | Star r1 => group_free r1
  | Group _ _ => false
  | _ => true
  end.

(** A candidate as the extractor builds it from the anchor [a]: the
    price text and the title are spans of the container that pass the
    tests of the callback. *)
Definition candidate_of (a : Anchor) (c : RawData) : Prop :=
  exists (m : mresult) (container : Element) (title price_raw : jsstring),
    str_match item_re (a_href a) = Some m
    /\ container_of a = Some container
    /\ (test price_prefixed_re price_raw || test price_suffixed_re price_raw) = true
    /\ (10 < length title)%nat
    /\ includes [breadcrumb] title = false
    /\ test starts_with_currency_re title = false
    /\ title <> price_raw
    /\ c = {| raw_title := Some title;
              raw_price_raw := Some price_raw;
              raw_url := Some (a_href a);
              raw_image_url := imageUrl_of container;
              raw_listing_id := Some (default [] (group 1 m));
              raw_location := None;
              raw_description := None |}.

(** A code unit [x] matches the letter [c] of a pattern under the [i]
    flag. *)
Definition matches_ci (c x : N) : Prop := x = c \/ x = c - 32.

(** The units a mileage can end with. *)
Definition unit_k (u : jsstring) : Prop := u = js "k" \/ u = js "K".
Definition unit_miles (u : jsstring) : Prop := Forall2 matches_ci (js "miles") u.

(** The violation that refuses the upsert of a listing, if any; it does
    not depend on the table. *)
Definition listing_violation (l : Listing) : option Violation :=
  match bind_year (year l) with
  | inl v => Some v
  | inr _ =>
      match listing_fits l with
      | Some v => Some v
      | None =>
          match source_url l with
          | None => Some (NotNull "source_url")
          | Some _ => None
          end
      end
  end.

(** The keys of the table hold: no two rows share an [id] or a
    [source_url], and the sequence is ahead of every [id]. *)
Record wf_db (d : Db) : Prop := {
  wf_ids : NoDup (map row_id (table d));
  wf_urls : NoDup (map row_source_url (table d));
  wf_seq : forall r, r ∈ table d -> row_id r < next_id d;
}.

(** The columns no statement of [update] writes. *)
Definition protected_columns (r : Row)
  : N * jsstring * option jsstring * N * N * bool :=
  (row_id r, row_source_url r, row_listing_id r, row_created_at r,
   row_last_scraped_at r, row_is_active r).

(** The world after a statement on the pool that leaves the database
    [d]: the call is recorded and time has passed. *)
Definition after_query (d : Db) (w : World) : World :=
  {| this_browser := this_browser w; this_page := this_page w; gotos := gotos w;
     db := d; txn := txn w; clock := clock w + 1; trace := trace w ++ [DbQuery] |}.

(** A listing as [normalizeListingData] returns it. *)
Definition vios_listing : Listing :=
  {| title := js "2018 Toyota Vios 1.3 E"; price := Num 350000; currency := js "PHP";
     year := Some (Num 2018); mileage := None; location := js "Manila";
     source_url := Some url1; listing_id := Some (js "111");
     image_url := None; description := None |}.

(** The calls that reach the database. *)
Definition is_db_event (e : Event) : bool :=
  match e with
  | GetClient | ClientQuery _ | DbQuery | ClientStatement | Release => true
  | _ => false
  end.



(** ** [services/car-listing-service.js]: the filters of a listing query

    [sanitizeFilters(filters)] is given [req.query].  A value of the query
    is a string, or an array or object of the query parser: such a value is
    truthy, is no string of an allow-list, has no string method, and is
    read by [parseInt] through its rendering as a string. *)

Inductive qvalue : Type :=
| QString (s : jsstring)
| QObject (rendering : jsstring).

Definition q_truthy (v : option qvalue) : bool :=
  match v with
  | Some (QString s) => truthy s
  | Some (QObject _) => true
  | None => false
  end.

Definition q_string (v : option qvalue) : jsstring :=
  match v with
  | Some (QString s) | Some (QObject s) => s
  | None => js "undefined"
  end.

(** The Number [parseInt] makes of an integer: the integer itself up to
    2^53 in absolute value, the double next to it above. *)
Inductive jsinteger : Type :=
| NotANumber
| Int (z : Z).

(** [parseInt(s, 10)]: white space, a sign, then the leading run of
    decimal digits. *)
Definition parseInt (s : jsstring) : jsinteger :=
  let S := trim_start s in
  let signed :=
    match S with
    | c :: rest => if c =? 45 then ((-1)%Z, rest)
                   else if c =? 43 then (1%Z, rest) else (1%Z, S)
    | [] => (1%Z, [])
    end in
  match digit_prefix signed.2 with
  | [] => NotANumber
  | ds => Int (signed.1 * Z.of_N (decimal ds))
  end.

(** [n || d]: [NaN] and zero are falsy. *)
Definition or_number (n : jsinteger) (d : Z) : Z :=
  match n with
  | Int z => if (z =? 0)%Z then d else z
  | NotANumber => d
  end.

(** The Number [parseFloat] makes of a string, not evaluated. *)
Inductive jsfloat : Type :=
| FloatOf (s : jsstring).

Record Filters : Type := mkFilters {
  f_page : option qvalue;
  f_limit : option qvalue;
  f_sortBy : option qvalue;
  f_sortOrder : option qvalue;
  f_minPrice : option qvalue;
  f_maxPrice : option qvalue;
  f_minYear : option qvalue;
  f_maxYear : option qvalue;
  f_location : option qvalue;
  f_search : option qvalue;
  f_isActive : option qvalue;
}.

(** The object [sanitizeFilters] returns, the [options] of [findAll]. *)
Record Sanitized : Type := mkSanitized {
  s_page : option Z;
  s_limit : option Z;
  s_sortBy : option jsstring;
  s_sortOrder : option jsstring;
  s_minPrice : option jsfloat;
  s_maxPrice : option jsfloat;
  s_minYear : option jsinteger;
  s_maxYear : option jsinteger;
  s_location : option jsstring;
  s_search : option jsstring;
  s_isActive : option bool;
}.

Definition allowedSortFields : list jsstring :=
  [js "created_at"; js "price"; js "year"; js "title"].

Definition sortOrders : list jsstring := [js "ASC"; js "DESC"].

(** [array.includes(v)] for an array of strings. *)
Definition includes_value (l : list jsstring) (v : qvalue) : bool :=
  match v with
  | QString s => existsb (str_eqb s) l
  | QObject _ => false
  end.

Section Filters.

(** [String.prototype.toUpperCase], left open: what follows holds
    whatever it maps a string to. *)
Variable toUpperCase : jsstring -> jsstring.

(** A method of strings called on a truthy value of the query: a
    [TypeError] when the value is no string. *)
Definition string_method (f : jsstring -> jsstring) (v : option qvalue)
  : Error + option jsstring :=
  match v with
  | Some (QString s) => inr (if truthy s then Some (f s) else None)
  | Some (QObject _) => inl TypeError
  | None => inr None
  end.

Definition sanitizeFilters (filters : Filters) : Error + Sanitized :=
  let when (v : option qvalue) {A} (x : A) : option A :=
    if q_truthy v then Some x else None in
  (* Pagination *)
  let page :=
    when (f_page filters) (Z.max 1 (or_number (parseInt (q_string (f_page filters))) 1)) in
  let limit :=
    when (f_limit filters)
         (Z.min 100 (Z.max 1 (or_number (parseInt (q_string (f_limit filters))) 20))) in
  (* Sorting *)
  let sortBy :=
    match f_sortBy filters with
    | Some v => if q_truthy (Some v) && includes_value allowedSortFields v
                then Some (q_string (Some v)) else None
    | None => None
    end in
  match string_method toUpperCase (f_sortOrder filters) with
  | inl e => inl e
  | inr upper =>
      let sortOrder :=
        match upper with
        | Some u => if existsb (str_eqb u) sortOrders then Some u else None
        | None => None
        end in
      (* Filters *)
      let minPrice := when (f_minPrice filters) (FloatOf (q_string (f_minPrice filters))) in
      let maxPrice := when (f_maxPrice filters) (FloatOf (q_string (f_maxPrice filters))) in
      let minYear := when (f_minYear filters) (parseInt (q_string (f_minYear filters))) in
      let maxYear := when (f_maxYear filters) (parseInt (q_string (f_maxYear filters))) in
      match string_method trim (f_location filters) with
      | inl e => inl e
      | inr location =>
          match string_method trim (f_search filters) with
          | inl e => inl e
          | inr search =>
              let isActive :=
                match f_isActive filters with
                | Some (QString s) => Some (str_eqb s (js "true"))
                | Some (QObject _) => Some false
                | None => None
                end in
              inr {| s_page := page; s_limit := limit;
                     s_sortBy := sortBy; s_sortOrder := sortOrder;
                     s_minPrice := minPrice; s_maxPrice := maxPrice;
                     s_minYear := minYear; s_maxYear := maxYear;
                     s_location := location; s_search := search;
                     s_isActive := isActive |}
          end
      end
  end.

End Filters.

(** ** [models/car-listing-model.js]: the window and the order of [findAll]

    [findAll] puts [sortBy] and [sortOrder] into the text of its data
    query and binds [limit] and [offset] as its last two parameters. *)

Definition findAll_page (options : Sanitized) : Z := default 1%Z (s_page options).
Definition findAll_limit (options : Sanitized) : Z := default 20%Z (s_limit options).
Definition findAll_offset (options : Sanitized) : Z :=
  ((findAll_page options - 1) * findAll_limit options)%Z.

(** [ORDER BY ${sortBy} ${sortOrder}] *)
Definition findAll_order_by (options : Sanitized) : jsstring :=
  js "ORDER BY " ++ default (js "created_at") (s_sortBy options)
     ++ js " " ++ default (js "DESC") (s_sortOrder options).

(** The eight clauses built from the columns and directions the service
    allows. *)
Definition order_by_clauses : list jsstring :=
  col ← allowedSortFields; dir ← sortOrders; [js "ORDER BY " ++ col ++ js " " ++ dir].

(** A query with a page, a page size and a sort order. *)
Definition sample_filters : Filters :=
  {| f_page := Some (QString (js "3")); f_limit := Some (QString (js "500"));
     f_sortBy := Some (QString (js "price")); f_sortOrder := Some (QString (js "ASC"));
     f_minPrice := None; f_maxPrice := None; f_minYear := None; f_maxYear := None;
     f_location := None; f_search := None; f_isActive := None |}.

(** ** [scrapers/facebook-scraper.js]: the timer of [autoScroll]

    The function [autoScroll] hands to [page.evaluate]: every 200 ms the
    timer reads [document.body.scrollHeight], scrolls by [distance] and
    stops once the sum reaches the height or 3000.  [scrollHeight] gives
    the height read at each tick; [fuel] bounds the ticks followed.  The
    result is the number of ticks and [totalHeight] when the promise
    resolves. *)
Definition distance : Z := 300.

Fixpoint scroll_timer (fuel : nat) (scrollHeight : nat -> Z) (ticks : nat) (totalHeight : Z)
  : option (nat * Z) :=
  match fuel with
  | O => None
  | S fuel' =>
      let height := scrollHeight ticks in
      let totalHeight := (totalHeight + distance)%Z in
      if (height <=? totalHeight)%Z || (3000 <=? totalHeight)%Z
      then Some (S ticks, totalHeight)
      else scroll_timer fuel' scrollHeight (S ticks) totalHeight
  end.

(** An array or object of the query parser. *)
Definition is_object (v : option qvalue) : bool :=
  match v with Some (QObject _) => true | _ => false end.

(** The upserts a loop over a batch makes from the world [w]: one for
    each listing, up to and including the first that throws. *)
Fixpoint upserts_sent (listings : list Listing) (w : World) : nat :=
  match listings with
  | [] => 0
  | l :: listings' =>
      match CarListingModel.upsert l w with
      | (Ok _, w') => S (upserts_sent listings' w')
      | (Thrown _, _) => 1
      end
  end.

(** * Properties *)

(** ** The UPDATE statement *)

Section SqlUpdate.
Variable now : N.
Variable where_ : Row -> bool.

Lemma sql_update_total (f : Row -> Row) (t : Table) :
  sql_update now where_ (fun r => inr (f r)) t =
  inr (map (fun r => if where_ r then update_updated_at_column now (f r) else r) t,
       map (fun r => update_updated_at_column now (f r))
           (filter (fun r => where_ r = true) t)).
Proof.
  induction t as [|r t IH]; [reflexivity|].
  cbn [sql_update map]. rewrite IH, filter_cons.
  destruct (where_ r) eqn:E.
  - rewrite decide_True by done. reflexivity.
  - rewrite decide_False by done. reflexivity.
Qed.

Lemma sql_update_no_row (set : Row -> Violation + Row) (t : Table) :
  (forall r, r ∈ t -> where_ r = false) ->
  sql_update now where_ set t = inr (t, []).
Proof.
  induction t as [|r t IH]; intros H; [reflexivity|].
  cbn [sql_update]. rewrite (H r) by left.
  rewrite IH; [reflexivity|]. intros r' Hr'. apply H. by right.
Qed.
End SqlUpdate.

Lemma filter_none {A} (p : A -> bool) (l : list A) :
  (forall x, x ∈ l -> p x = false) -> filter (fun x => p x = true) l = [].
Proof.
  induction l as [|x l IH]; intros H; [reflexivity|].
  rewrite filter_cons, decide_False.
  - apply IH. intros y Hy. apply H. by right.
  - rewrite (H x) by left. done.
Qed.

Lemma existsb_elem {A} (p : A -> bool) (l : list A) :
  existsb p l = true <-> exists x, x ∈ l /\ p x = true.
Proof.
  rewrite existsb_exists. split; intros (x & H1 & H2); exists x; split; try done;
    by apply list_elem_of_In.
Qed.

(** ** Soft delete *)


Lemma filter_length_existsb {A} (p : A -> bool) (l : list A) :
  (0 <? length (filter (fun x => p x = true) l))%nat = existsb p l.
Proof.
  induction l as [|x l IH]; [reflexivity|].
  rewrite filter_cons. cbn [existsb]. destruct (p x) eqn:E.
  - rewrite decide_True by done. reflexivity.
  - rewrite decide_False by done. exact IH.
Qed.

(** What a call of [delete] does, by the fate of its parameter. *)
Lemma delete_run (id : N) (w : World) :
  CarListingModel.delete id w =
  match bind_integer id with
  | Some v => (Thrown (DbError v), after_query (db w) w)
  | None =>
      (Ok (existsb (has_id id) (table (db w))),
       after_query
         (mkDb (map (fun r => if has_id id r
                              then update_updated_at_column (clock w) (set_inactive r)
                              else r) (table (db w)))
               (next_id (db w))) w)
  end.
Proof.
  unfold CarListingModel.delete, bind, emit, gets, tick, modify, set_db, ret, throw,
    after_query.
  cbn [fst snd this_browser this_page gotos db txn clock trace].
  destruct (bind_integer id); [reflexivity|].
  rewrite sql_update_total. cbn [fst snd this_browser this_page gotos db txn clock trace].
  by rewrite length_map, filter_length_existsb.
Qed.

Lemma delete_is_soft_result (id : N) (w : World) :
  bind_integer id = None ->
  result_of (CarListingModel.delete id w) = Ok (existsb (has_id id) (table (db w))).
Proof. intros H. by rewrite delete_run, H. Qed.

Lemma delete_is_soft_table (id : N) (w : World) :
  bind_integer id = None ->
  stored (CarListingModel.delete id w) =
  map (fun r => if has_id id r
                then update_updated_at_column (clock w) (set_inactive r) else r)
      (table (db w)).
Proof. intros H. by rewrite delete_run, H. Qed.

Lemma delete_refused (id : N) (v : Violation) (w : World) :
  bind_integer id = Some v ->
  CarListingModel.delete id w = (Thrown (DbError v), after_query (db w) w).
Proof. intros H. by rewrite delete_run, H. Qed.

Lemma delete_is_soft_length (id : N) (w : World) :
  length (stored (CarListingModel.delete id w)) = length (table (db w)).
Proof.
  rewrite delete_run. destruct (bind_integer id); [reflexivity|].
  unfold stored, world_of. cbn [snd after_query db table]. apply length_map.
Qed.


(** ** Soft-deleted rows on the read and update paths *)

Lemma deleted_world_soft_deleted : soft_deleted 1 (table (db deleted_world)).
Proof.
  split.
  - exists (sample_row 1 url1 0 false). split; [by left | reflexivity].
  - intros r Hr _. apply list_elem_of_singleton in Hr. by subst r.
Qed.

Lemma bind_integer_None (n : N) : bind_integer n = None <-> n <= int4_max.
Proof.
  unfold bind_integer. destruct (n <=? int4_max) eqn:E.
  - apply N.leb_le in E. done.
  - apply N.leb_gt in E. split; [by destruct (n <? 10 ^ 21)|lia].
Qed.

Lemma bind_integer_Some (n : N) (v : Violation) :
  bind_integer n = Some v -> int4_max < n.
Proof.
  intros H. destruct (decide (n <= int4_max)) as [Hle|Hgt]; [|lia].
  apply bind_integer_None in Hle. congruence.
Qed.

(** What a call of [findById] does, by the fate of its parameter. *)
Lemma findById_run (id : N) (w : World) :
  result_of (CarListingModel.findById id w)
  = match bind_integer id with
    | Some v => Thrown (DbError v)
    | None => Ok (head (filter (fun r => active_with_id id r = true) (table (db w))))
    end.
Proof.
  unfold CarListingModel.findById, bind, emit, gets, modify, throw, ret, result_of.
  cbn [fst snd this_browser this_page gotos db txn clock trace].
  by destruct (bind_integer id).
Qed.

Lemma findById_reads (id : N) (w : World) :
  stored (CarListingModel.findById id w) = table (db w).
Proof.
  unfold CarListingModel.findById, bind, emit, gets, modify, throw, ret, stored, world_of.
  cbn [fst snd this_browser this_page gotos db txn clock trace].
  by destruct (bind_integer id).
Qed.

(** What a call of [update] does. *)
Lemma update_run (id : N) (updates : list Update) (w : World) :
  CarListingModel.update id updates w =
  let fields := filter (fun u => allowed u = true) updates in
  if (length fields =? 0)%nat then (Thrown (PlainError "No valid fields to update"), w)
  else
    match update_refused id fields with
    | Some v => (Thrown (DbError v), after_query (db w) w)
    | None =>
        match sql_update (clock w) (active_with_id id) (assign_all fields) (table (db w)) with
        | inl v => (Thrown (DbError v), after_query (db w) w)
        | inr (t', rows) => (Ok (head rows), after_query (mkDb t' (next_id (db w))) w)
        end
    end.
Proof.
  unfold CarListingModel.update. cbv zeta.
  destruct (length _ =? 0)%nat; [reflexivity|].
  unfold bind, emit, gets, tick, set_db, modify, throw, ret. step.
  destruct (update_refused _ _); [reflexivity|].
  by destruct (sql_update _ _ _ _) as [v|[t' rows]].
Qed.

(** C10, as stated, fails for [update]: on an object with no allowed key
    it throws before it reads the table, whatever the row is. *)
Lemma update_without_fields_throws :
  soft_deleted 1 (table (db deleted_world))
  /\ result_of (CarListingModel.update 1 [UOther "is_active"] deleted_world)
     = Thrown (PlainError "No valid fields to update")
  /\ result_of (CarListingService.updateListing 2026 1 [UOther "is_active"] deleted_world)
     = Thrown (PlainError "No valid fields to update").
Proof.
  split; [exact deleted_world_soft_deleted|]. split; reflexivity.
Qed.

Lemma soft_deleted_no_active (id : N) (t : Table) :
  soft_deleted id t -> forall r, r ∈ t -> active_with_id id r = false.
Proof.
  intros [_ H] r Hr. unfold active_with_id, has_id.
  destruct (row_id r =? id) eqn:E; [|reflexivity].
  apply N.eqb_eq in E. by rewrite (H r Hr E).
Qed.

Lemma soft_deleted_exists (id : N) (t : Table) :
  soft_deleted id t -> existsb (has_id id) t = true.
Proof.
  intros [(r & Hr & E) _]. apply existsb_elem. exists r. split; [done|].
  unfold has_id. by apply N.eqb_eq.
Qed.

Lemma allowed_fields_nonempty (updates : list Update) :
  (exists u, u ∈ updates /\ allowed u = true) ->
  (length (filter (fun u => allowed u = true) updates) =? 0)%nat = false.
Proof.
  intros (u & Hu & Ha). apply Nat.eqb_neq. intros Hlen.
  apply length_zero_iff_nil in Hlen.
  assert (Hin : u ∈ filter (fun u => allowed u = true) updates)
    by (apply list_elem_of_filter; done).
  rewrite Hlen in Hin. by apply not_elem_of_nil in Hin.
Qed.

Lemma validateUpdateData_world (currentYear : N) (updates : list Update) (w : World) :
  world_of (CarListingService.validateUpdateData currentYear updates w) = w.
Proof.
  unfold CarListingService.validateUpdateData, bind, throw, ret, world_of.
  repeat match goal with
         | |- context [find_first ?p updates ≫= ?f] =>
             destruct (find_first p updates ≫= f); simpl
         end; reflexivity.
Qed.

Lemma first_some_elem {A} (l : list (option A)) (x : A) :
  Some x ∈ l -> exists v, first_some l = Some v.
Proof.
  unfold first_some. induction l as [|[y|] l IH]; intros H.
  - by apply not_elem_of_nil in H.
  - by exists y.
  - cbn [find_first]. apply IH. by apply elem_of_cons in H as [H|H].
Qed.

(** A year outside INTEGER among the fields: the statement is refused. *)
Lemma update_refused_year (id y : N) (fields : list Update) :
  UYear (Some y) ∈ fields -> int4_max < y ->
  exists v, update_refused id fields = Some v.
Proof.
  intros Hin Hy. unfold update_refused.
  destruct (bind_integer y) as [v|] eqn:Hb.
  - apply (first_some_elem _ v). apply elem_of_app. left.
    apply list_elem_of_fmap. by exists (UYear (Some y)).
  - apply bind_integer_None in Hb. lia.
Qed.

(** C10, amended: a soft-deleted row is invisible to the read and update
    paths.  For an id all of whose rows have [is_active = false],
    [findById] returns [null], and so does [update], given at least one
    allowed field, when the database accepts the values; the service
    turns both into a 404.  When a year among the fields is outside
    INTEGER the database refuses the statement whatever the row, and
    [update] throws.  In no case does [update] change the table; with no
    allowed field it throws before it reads the table.  [delete] on such
    a row still returns [true] and the service reports success. *)
Theorem soft_deleted_invisible (currentYear id : N) (updates : list Update) (w : World) :
  soft_deleted id (table (db w)) ->
  id <= int4_max ->
  (exists u, u ∈ updates /\ allowed u = true) ->
  result_of (CarListingModel.findById id w) = Ok None
  /\ result_of (CarListingService.getListingById id w)
     = Thrown (HttpError 404 "Listing not found")
  /\ (update_refused id (filter (fun u => allowed u = true) updates) = None ->
      result_of (CarListingModel.update id updates w) = Ok None
      /\ (result_of (CarListingService.validateUpdateData currentYear updates w) = Ok tt ->
          result_of (CarListingService.updateListing currentYear id updates w)
          = Thrown (HttpError 404 "Listing not found or inactive")))
  /\ (forall y, UYear (Some y) ∈ updates -> int4_max < y ->
      exists v, result_of (CarListingModel.update id updates w) = Thrown (DbError v))
  /\ stored (CarListingModel.update id updates w) = table (db w)
  /\ result_of (CarListingModel.delete id w) = Ok true
  /\ length (stored (CarListingModel.delete id w)) = length (table (db w))
  /\ result_of (CarListingService.deleteListing id w) = Ok true.
Proof.
  intros Hdel Hid Hfields.
  apply bind_integer_None in Hid.
  pose proof (soft_deleted_no_active _ _ Hdel) as Hnone.
  pose proof (soft_deleted_exists _ _ Hdel) as Hex.
  pose proof (allowed_fields_nonempty _ Hfields) as Hlen.
  pose proof (delete_is_soft_result id w Hid) as Hd.
  assert (Hfind : result_of (CarListingModel.findById id w) = Ok None).
  { by rewrite findById_run, Hid, (filter_none _ _ Hnone). }
  assert (Hservice : forall r w',
             CarListingModel.update id updates w = (r, w') ->
             result_of (CarListingService.validateUpdateData currentYear updates w) = Ok tt ->
             result_of (CarListingService.updateListing currentYear id updates w)
             = match r with
               | Ok (Some row) => Ok row
               | Ok None => Thrown (HttpError 404 "Listing not found or inactive")
               | Thrown e => Thrown e
               end).
  { intros r w' Hu.
    pose proof (validateUpdateData_world currentYear updates w) as Hw.
    unfold CarListingService.updateListing, try_catch, bind, result_of, world_of in *.
    destruct (CarListingService.validateUpdateData currentYear updates w) as [r0 w0].
    cbn [fst snd] in *. subst w0. intros ->. rewrite Hu.
    by destruct r as [[row|]|e]. }
  pose proof (update_run id updates w) as Hupd. cbv zeta in Hupd. rewrite Hlen in Hupd.
  split; [exact Hfind|]. split.
  { unfold CarListingService.getListingById, try_catch, bind, result_of in *.
    destruct (CarListingModel.findById id w) as [r w']. cbn [fst] in Hfind. by subst r. }
  split.
  { intros Hok. rewrite Hok, (sql_update_no_row _ _ _ _ Hnone) in Hupd.
    split; [by rewrite Hupd|]. intros Hv. by rewrite (Hservice _ _ Hupd Hv). }
  split.
  { intros y Hy Hbig.
    destruct (update_refused_year id y (filter (fun u => allowed u = true) updates))
      as (v & Hv); [by apply list_elem_of_filter|exact Hbig|].
    exists v. by rewrite Hupd, Hv. }
  split.
  { destruct (update_refused id _) as [v|]; [by rewrite Hupd|].
    rewrite (sql_update_no_row _ _ _ _ Hnone) in Hupd. rewrite Hupd.
    by destruct (db w). }
  split; [by rewrite Hd, Hex|]. split; [apply delete_is_soft_length|].
  unfold CarListingService.deleteListing, try_catch, bind, result_of in *.
  destruct (CarListingModel.delete id w) as [r w']. cbn [fst] in Hd. subst r.
  by rewrite Hex.
Qed.

Lemma soft_deleted_invisible_witness :
  soft_deleted 1 (table (db deleted_world))
  /\ result_of (CarListingModel.findById 1 deleted_world) = Ok None
  /\ result_of (CarListingModel.update 1 [UPrice (Some (Num 400000))] deleted_world) = Ok None
  /\ (exists v, result_of (CarListingModel.update 1 [UYear (Some 3000000000)] deleted_world)
                = Thrown (DbError v))
  /\ result_of (CarListingModel.delete 1 deleted_world) = Ok true.
Proof.
  assert (H1 : soft_deleted 1 (table (db deleted_world))).
  { split.
    - exists (sample_row 1 url1 0 false). split; [by left | reflexivity].
    - intros r Hr _. apply list_elem_of_singleton in Hr. by subst r. }
  assert (Hid : 1 <= int4_max) by (unfold int4_max; lia).
  assert (H2 : exists u, u ∈ [UPrice (Some (Num 400000))] /\ allowed u = true).
  { exists (UPrice (Some (Num 400000))). split; [by left | reflexivity]. }
  assert (H3 : exists u, u ∈ [UYear (Some 3000000000)] /\ allowed u = true).
  { exists (UYear (Some 3000000000)). split; [by left | reflexivity]. }
  destruct (soft_deleted_invisible 2026 1 [UPrice (Some (Num 400000))] deleted_world
              H1 Hid H2) as (A & _ & B & _ & _ & D & _).
  destruct (soft_deleted_invisible 2026 1 [UYear (Some 3000000000)] deleted_world
              H1 Hid H3) as (_ & _ & _ & C & _).
  split; [exact H1|]. split; [exact A|]. split; [exact (proj1 (B eq_refl))|].
  split; [|exact D].
  apply (C 3000000000); [by left|unfold int4_max; lia].
Defined.

(** ** The batch upsert *)

(** C1: the batch is not all-or-nothing.  [bulkUpsert] opens the
    transaction on its own client but sends every upsert through
    [db.query], that is through the pool: each upsert is committed on its
    own, and the ROLLBACK after the failure of the second listing undoes
    nothing.  The first listing of the batch stays in the table. *)
Theorem bulkUpsert_keeps_partial_batch :
  length overflowing_batch = 2%nat
  /\ result_of (CarListingModel.bulkUpsert overflowing_batch empty_world)
     = Thrown (DbError NumericOverflow)
  /\ map row_source_url (stored (CarListingModel.bulkUpsert overflowing_batch empty_world))
     = [url1]
  /\ stored (upsertBatch_in_transaction overflowing_batch empty_world) = [].
Proof. vm_compute. repeat split. Qed.

Lemma client_query_upsert_in_transaction (l : Listing) (w : World) :
  txn w <> NoTxn ->
  stored (client_query_upsert l w) = table (db w)
  /\ txn (world_of (client_query_upsert l w)) <> NoTxn.
Proof.
  intros Hw.
  unfold client_query_upsert, bind, emit, gets, modify, set_txn, set_db, tick, throw, ret,
    stored, world_of.
  simpl. destruct (txn w) eqn:Et; [done| |].
  - destruct (upsert_stmt _ _ _ _) as [v|[t' row]]; [destruct (draws_id v)|]; simpl; done.
  - done.
Qed.

Lemma for_each_in_transaction (listings : list Listing) (w : World) :
  txn w <> NoTxn ->
  stored (for_each listings client_query_upsert w) = table (db w)
  /\ txn (world_of (for_each listings client_query_upsert w)) <> NoTxn.
Proof.
  revert w. induction listings as [|l ls IH]; intros w Hw; [done|].
  cbn [for_each]. unfold bind.
  destruct (client_query_upsert_in_transaction l w Hw) as [Ht Hx].
  destruct (client_query_upsert l w) as [r w1].
  unfold stored, world_of in Ht, Hx. simpl in Ht, Hx.
  destruct r as [row|e]; [|done].
  destruct (IH w1 Hx) as [IH1 IH2].
  destruct (for_each ls client_query_upsert w1) as [r2 w2].
  unfold stored, world_of in *. simpl in *.
  destruct r2; simpl; rewrite <- Ht; done.
Qed.

Lemma getClient_run (w : World) :
  exists w', getClient w = (Ok tt, w') /\ db w' = db w /\ txn w' = NoTxn.
Proof. eexists. split; [reflexivity|]. split; reflexivity. Qed.

Lemma release_run (w : World) :
  exists w', release w = (Ok tt, w') /\ db w' = db w.
Proof. eexists. split; reflexivity. Qed.

Lemma client_query_run (c : TxnCommand) (w : World) :
  exists w', client_query c w = (Ok tt, w')
             /\ (c <> COMMIT -> db w' = db w)
             /\ (c = BEGIN -> txn w = NoTxn -> txn w' <> NoTxn).
Proof.
  unfold client_query, bind, emit, gets, modify, set_txn, set_db, tick, ret. simpl.
  destruct c, (txn w); simpl; eexists; (split; [reflexivity|]); split; done.
Qed.

(** The transactional batch of the design document is all-or-nothing: a
    failure leaves the table as it was. *)
Lemma upsertBatch_in_transaction_atomic (listings : list Listing) (w : World) (e : Error) :
  result_of (upsertBatch_in_transaction listings w) = Thrown e ->
  stored (upsertBatch_in_transaction listings w) = table (db w).
Proof.
  unfold upsertBatch_in_transaction, try_finally, try_catch, bind, result_of, stored, world_of.
  destruct (getClient_run w) as (w0 & -> & Hdb0 & Htx0).
  destruct (client_query_run BEGIN w0) as (w1 & -> & Hdb1 & Htx1).
  specialize (Hdb1 ltac:(done)). specialize (Htx1 eq_refl Htx0).
  destruct (for_each_in_transaction listings w1 Htx1) as [Ht _].
  unfold stored, world_of in Ht.
  destruct (for_each listings client_query_upsert w1) as [r w2]. simpl in Ht.
  destruct r as [rows|e'].
  - destruct (client_query_run COMMIT w2) as (w3 & -> & _ & _). unfold ret.
    destruct (release_run w3) as (w4 & -> & _). simpl. discriminate.
  - destruct (client_query_run ROLLBACK w2) as (w3 & -> & Hdb3 & _).
    specialize (Hdb3 ltac:(done)). unfold throw.
    destruct (release_run w3) as (w4 & -> & Hdb4). simpl. intros _.
    by rewrite Hdb4, Hdb3, Ht, Hdb1, Hdb0.
Qed.

Lemma upsert_stmt_keeps_url (now new_id : N) (l : Listing) (t t' : Table) (row : Row) :
  upsert_stmt now new_id l t = inr (t', row) ->
  exists url, source_url l = Some url /\ existsb (same_url url) t' = true.
Proof.
  unfold upsert_stmt.
  destruct (bind_year (year l)) as [v|y]; [discriminate|].
  destruct (listing_fits l); [discriminate|].
  destruct (source_url l) as [url|]; [|discriminate].
  destruct (existsb (same_url url) t) eqn:Ex.
  - rewrite sql_update_total. intros [= <- _]. exists url. split; [reflexivity|].
    apply existsb_elem in Ex as (r & Hr & Hu). apply existsb_elem.
    exists (update_updated_at_column now
              (conflict_update now (inserted_row now new_id l url y) r)).
    split; [|exact Hu].
    apply list_elem_of_fmap. exists r. by rewrite Hu.
  - intros [= <- _]. exists url. split; [reflexivity|].
    apply existsb_elem. eexists. split; [apply elem_of_app; right; by left|].
    unfold same_url, str_eqb. cbn [inserted_row row_source_url]. by apply bool_decide_eq_true.
Qed.

(** The defect behind C1, for any batch: when the first listing is
    accepted and the second is refused, [bulkUpsert] throws and the table
    is the one the first upsert left, with the first listing in it. *)
Lemma bulkUpsert_commits_before_failure (good bad : Listing) (others : list Listing)
    (w : World) (t1 : Table) (row1 : Row) (v : Violation) :
  upsert_stmt (clock w + 1) (next_id (db w)) good (table (db w)) = inr (t1, row1) ->
  (forall now new_id t, upsert_stmt now new_id bad t = inl v) ->
  result_of (CarListingModel.bulkUpsert (good :: bad :: others) w) = Thrown (DbError v)
  /\ stored (CarListingModel.bulkUpsert (good :: bad :: others) w) = t1
  /\ exists url, source_url good = Some url /\ existsb (same_url url) t1 = true.
Proof.
  intros Hgood Hbad.
  unfold CarListingModel.bulkUpsert, CarListingModel.upsert, getClient, release,
    client_query, db_query_upsert, try_finally, try_catch.
  cbn [for_each].
  unfold bind, emit, gets, tick, set_txn, set_db, modify, throw, ret,
    result_of, stored, world_of.
  step. rewrite Hgood. step. rewrite Hbad. destruct (draws_id v); step;
    (repeat split; by apply upsert_stmt_keeps_url in Hgood).
Qed.

(** ** The scrape run *)

(** C2, as stated, fails: there is no retry.  With a first navigation
    that times out and a second that would succeed, the run calls
    [page.goto] once and fails. *)
Lemma no_navigation_retry :
  ~ retries_navigation_once (quiet_env slow_once []) empty_world.
Proof.
  intros H. destruct (H eq_refl) as [Hn _]. vm_compute in Hn. discriminate Hn.
Qed.

(** C2, amended: when navigation to the target page does not settle
    within the configured timeout, the pipeline does not retry.
    [page.goto] is called once, the browser is closed, and the timeout
    propagates to the caller of [scrape] and of [scrapeAndStore]; nothing
    is persisted. *)
Theorem navigation_timeout_is_fatal (env : Env) (w : World) :
  navigation_times_out env w ->
  result_of (scrapeAndStore env w) = Thrown TimeoutError
  /\ gotos (world_of (scrapeAndStore env w)) = S (gotos w)
  /\ trace (world_of (scrapeAndStore env w)) =
       trace w ++ [Launch; NewPage; SetViewport; SetExtraHTTPHeaders;
                   Goto (cfg_timeout env); BrowserClose]
  /\ db (world_of (scrapeAndStore env w)) = db w
  /\ result_of (CarListingService.triggerScraping env w)
     = Thrown (PlainError "Scraping process failed").
Proof.
  intros (H1 & H2 & H3 & H4 & H5 & H6).
  unfold CarListingService.triggerScraping. run_pipeline.
  rewrite H1; step. rewrite H2; step. rewrite H3; step. rewrite H4; step.
  rewrite H5; step. rewrite H6; step.
  repeat split. by repeat rewrite <- app_assoc.
Qed.

Lemma navigation_timeout_is_fatal_witness :
  navigation_times_out (quiet_env slow_once []) empty_world
  /\ result_of (scrapeAndStore (quiet_env slow_once []) empty_world) = Thrown TimeoutError
  /\ gotos (world_of (scrapeAndStore (quiet_env slow_once []) empty_world)) = 1%nat.
Proof.
  assert (H : navigation_times_out (quiet_env slow_once []) empty_world)
    by (repeat split; reflexivity).
  destruct (navigation_timeout_is_fatal (quiet_env slow_once []) empty_world H)
    as (A & B & _).
  exact (conj H (conj A B)).
Defined.

(** C6: on every exit path of [scrape], the browser that was launched is
    closed, and closing it is the last thing the run does; when the
    launch itself fails there is no browser and nothing else happens. *)
Theorem scrape_always_closes (env : Env) (w : World) :
  this_browser w = false ->
  exists evs : list Event,
    trace (world_of (FacebookScraper.scrape env w)) = trace w ++ Launch :: evs
    /\ match on_launch env with
       | None => last evs = Some BrowserClose
       | Some _ => evs = []
       end.
Proof.
  intros Hb. run_pipeline.
  follow (on_launch env).
  { rewrite Hb. exists []. split; reflexivity. }
  follow (on_newPage env);
    [follow (on_close env); eexists; (split; [by repeat rewrite <- app_assoc|reflexivity])|].
  follow (on_setViewport env);
    [follow (on_close env); eexists; (split; [by repeat rewrite <- app_assoc|reflexivity])|].
  follow (on_setExtraHTTPHeaders env);
    [follow (on_close env); eexists; (split; [by repeat rewrite <- app_assoc|reflexivity])|].
  follow (on_goto env (gotos w));
    [follow (on_close env); eexists; (split; [by repeat rewrite <- app_assoc|reflexivity])|].
  follow (on_waitForSelector env);
    (follow (on_scroll env);
     [follow (on_close env); eexists; (split; [by repeat rewrite <- app_assoc|reflexivity])|]);
    (follow (on_extract env); follow (on_close env);
     eexists; (split; [by repeat rewrite <- app_assoc|reflexivity])).
Qed.

Lemma scrape_always_closes_witness :
  this_browser empty_world = false
  /\ exists evs : list Event,
       trace (world_of (FacebookScraper.scrape (quiet_env slow_once []) empty_world))
       = trace empty_world ++ Launch :: evs
       /\ last evs = Some BrowserClose.
Proof.
  split; [reflexivity|].
  exact (scrape_always_closes (quiet_env slow_once []) empty_world eq_refl).
Defined.

(** ** The empty run *)

Lemma extract_no_link (maxListings : Z) (doc : Document) :
  listingLinks doc = [] -> extract maxListings doc = [].
Proof. unfold extract. intros ->. reflexivity. Qed.

(** C7: when the extractor returns no candidate, [scrapeAndStore]
    completes with [{success: true, count: 0}], throws nothing, and makes
    no call to the database: the browser calls are the only ones, and the
    database is as it was. *)
Theorem empty_run_succeeds (env : Env) (doc : Document) (w : World) :
  browser_cooperates env w ->
  on_extract env = inr doc ->
  extract (cfg_maxListings env) doc = [] ->
  result_of (scrapeAndStore env w) = Ok {| success := true; count := 0; listings := None |}
  /\ db (world_of (scrapeAndStore env w)) = db w
  /\ txn (world_of (scrapeAndStore env w)) = txn w
  /\ trace (world_of (scrapeAndStore env w)) =
       trace w ++ [Launch; NewPage; SetViewport; SetExtraHTTPHeaders;
                   Goto (cfg_timeout env); WaitForSelector; Sleep 5000;
                   EvaluateScroll; Sleep 2000;
                   EvaluateExtract (cfg_maxListings env); BrowserClose].
Proof.
  intros (H1 & H2 & H3 & H4 & H5 & H6 & H7) Hdoc Hnone.
  run_pipeline.
  rewrite H1; step. rewrite H2; step. rewrite H3; step. rewrite H4; step.
  rewrite H5; step.
  follow (on_waitForSelector env);
    (rewrite H6; step; rewrite Hdoc; step; rewrite Hnone; step; rewrite H7; step;
     cbn [normalizeAll foldl length Nat.eqb]; step;
     repeat split; by repeat rewrite <- app_assoc).
Qed.

Lemma empty_run_succeeds_witness :
  browser_cooperates (quiet_env (fun _ => None) page_without_items) empty_world
  /\ extract 50 page_without_items = []
  /\ result_of (scrapeAndStore (quiet_env (fun _ => None) page_without_items) empty_world)
     = Ok {| success := true; count := 0; listings := None |}.
Proof.
  assert (H1 : browser_cooperates (quiet_env (fun _ => None) page_without_items) empty_world)
    by (repeat split; reflexivity).
  assert (H2 : extract 50 page_without_items = []) by (vm_compute; reflexivity).
  destruct (empty_run_succeeds (quiet_env (fun _ => None) page_without_items)
              page_without_items empty_world H1 eq_refl H2) as (A & _).
  exact (conj H1 (conj H2 A)).
Defined.

(** ** The normalization loop *)

Lemma normalizeAll_omap (scrapedData : list RawData) :
  normalizeAll scrapedData = omap normalizeListingData scrapedData.
Proof.
  unfold normalizeAll.
  enough (H : forall acc, foldl (fun listings item =>
                match normalizeListingData item with
                | Some listing => listings ++ [listing]
                | None => listings
                end) acc scrapedData = acc ++ omap normalizeListingData scrapedData)
    by apply (H []).
  induction scrapedData as [|c l IH]; intros acc; cbn [foldl omap list_omap].
  - by rewrite app_nil_r.
  - rewrite IH. destruct (normalizeListingData c); [|reflexivity].
    by rewrite <- app_assoc.
Qed.

Lemma normalizeAll_app (l1 l2 : list RawData) :
  normalizeAll (l1 ++ l2) = normalizeAll l1 ++ normalizeAll l2.
Proof. rewrite !normalizeAll_omap. apply omap_app. Qed.

(** The loop treats each candidate on its own: what it makes of a batch
    is what it makes of the candidates before, of the candidate itself
    and of the candidates after, in order. *)
Lemma normalizeAll_one_by_one (before after : list RawData) (c : RawData) :
  normalizeAll (before ++ c :: after)
  = normalizeAll before
      ++ match normalizeListingData c with Some l => [l] | None => [] end
      ++ normalizeAll after.
Proof.
  rewrite normalizeAll_app. f_equal.
  rewrite !normalizeAll_omap. cbn [omap list_omap].
  by destruct (normalizeListingData c).
Qed.

(** C8: a candidate whose price text does not parse is not always
    dropped.  On a page with two cards, the second with the price text
    of a peso sign and a comma, the extractor emits both candidates; the
    price of the second parses to [NaN], yet the loop forwards it with
    the first, and the run stores both, the second with the price [NaN].
    (The loop itself never fails and drops exactly the candidates for
    which [normalizeListingData] gives [null]: no candidate of the
    extractor is among them.) *)
Theorem unparsed_price_is_forwarded :
  map raw_price_raw (extract 50 comma_page) = [Some (peso :: js "350,000"); Some [peso; comma]]
  /\ parseFloat (strip_commas [comma]) = NaN
  /\ map price (normalizeAll (extract 50 comma_page)) = [Num 350000; NaN]
  /\ map source_url (normalizeAll (extract 50 comma_page)) = [Some url1; Some url2]
  /\ (exists rows,
        result_of (scrapeAndStore (quiet_env (fun _ => None) comma_page) empty_world)
        = Ok {| success := true; count := 2; listings := Some rows |})
  /\ map row_price
         (stored (scrapeAndStore (quiet_env (fun _ => None) comma_page) empty_world))
     = [Num 350000; NaN].
Proof.
  split; [vm_compute; reflexivity|]. split; [vm_compute; reflexivity|].
  split; [vm_compute; reflexivity|]. split; [vm_compute; reflexivity|].
  split; [eexists; vm_compute; reflexivity|]. vm_compute. reflexivity.
Qed.

(** ** Extraction: one candidate per listing id *)

(** What one call of the callback can do to the state. *)
Lemma extract_link_cases (maxListings : Z) (st : ExtractState) (a : Anchor) :
  (link_id a = None /\ extract_link maxListings st a = st)
  \/ (exists id, link_id a = Some id /\ id ∈ seenIds st
                 /\ extract_link maxListings st a = st)
  \/ (exists id, link_id a = Some id /\ (id ∉ seenIds st)
        /\ seenIds (extract_link maxListings st a) = {[ id ]} ∪ seenIds st
        /\ (results (extract_link maxListings st a) = results st
            \/ exists c, results (extract_link maxListings st a) = results st ++ [c]
                         /\ raw_listing_id c = Some id
                         /\ raw_url c = Some (a_href a))).
Proof.
  unfold extract_link, link_id.
  destruct (str_match item_re (a_href a)) as [urlMatch|]; [|by left].
  right. set (id := default [] (group 1 urlMatch)).
  destruct (bool_decide (id ∈ seenIds st)) eqn:Hseen.
  - left. exists id. apply bool_decide_eq_true in Hseen. done.
  - right. exists id. apply bool_decide_eq_false in Hseen.
    split; [done|]. split; [done|].
    destruct (maxListings <=? Z.of_nat (length (results st)))%Z; [by split; [|left]|].
    destruct (container_of a) as [container|]; [|by split; [|left]].
    destruct (find_first _ _) as [price_raw|]; [|by split; [|left]].
    destruct (find_first _ _) as [title|]; [|by split; [|left]].
    destruct (truthy (a_href a)); [|by split; [|left]].
    split; [done|]. right. eexists. split; [reflexivity|]. done.
Qed.

Lemma extract_inv_step (maxListings : Z) (processed : list Anchor) (st : ExtractState)
    (a : Anchor) :
  extract_inv processed st ->
  extract_inv (processed ++ [a]) (extract_link maxListings st a).
Proof.
  intros [Hseen Hnodup Hids Hfirst].
  assert (Hkeep : forall c, c ∈ results st ->
            exists before a0 after,
              processed ++ [a] = before ++ a0 :: after
              /\ raw_listing_id c = link_id a0
              /\ raw_url c = Some (a_href a0)
              /\ forall a', a' ∈ before -> link_id a' <> link_id a0).
  { intros c Hc. destruct (Hfirst c Hc) as (before & a0 & after & -> & H1 & H2 & H3).
    exists before, a0, (after ++ [a]). by rewrite <- app_assoc. }
  destruct (extract_link_cases maxListings st a)
    as [[Hid ->] | [(id & Hid & Hin & ->) | (id & Hid & Hnew & Hs & Hres)]].
  - split; try done.
    intros id. rewrite Hseen. split.
    + intros (a0 & Ha0 & E). exists a0. split; [|done]. apply elem_of_app. by left.
    + intros (a0 & Ha0 & E). apply elem_of_app in Ha0 as [Ha0|Ha0]; [by eauto|].
      apply list_elem_of_singleton in Ha0. subst a0. congruence.
  - split; try done.
    intros id'. rewrite Hseen. split.
    + intros (a0 & Ha0 & E). exists a0. split; [|done]. apply elem_of_app. by left.
    + intros (a0 & Ha0 & E). apply elem_of_app in Ha0 as [Ha0|Ha0]; [by eauto|].
      apply list_elem_of_singleton in Ha0. subst a0.
      assert (id' = id) by congruence. subst id'. by apply Hseen.
  - assert (Hseen' : forall id', id' ∈ seenIds (extract_link maxListings st a) <->
                       exists a0, a0 ∈ processed ++ [a] /\ link_id a0 = Some id').
    { intros id'. rewrite Hs, elem_of_union, elem_of_singleton, Hseen. split.
      - intros [-> | (a0 & Ha0 & E)].
        + exists a. split; [|done]. apply elem_of_app. right. by left.
        + exists a0. split; [|done]. apply elem_of_app. by left.
      - intros (a0 & Ha0 & E). apply elem_of_app in Ha0 as [Ha0|Ha0]; [by eauto|].
        apply list_elem_of_singleton in Ha0. subst a0. left. congruence. }
    destruct Hres as [Hres | (c & Hres & Hcid & Hcurl)].
    + split; [exact Hseen' | by rewrite Hres | | by rewrite Hres].
      intros c Hc. rewrite Hres in Hc. destruct (Hids c Hc) as (id' & E & Hin).
      exists id'. split; [done|]. rewrite Hs. apply elem_of_union. by right.
    + split; [exact Hseen' | | |].
      * rewrite Hres, map_app. apply NoDup_app. split; [done|]. split.
        -- intros x Hx Hx'. apply list_elem_of_singleton in Hx'. subst x.
           apply list_elem_of_fmap in Hx as (c0 & E & Hc0).
           destruct (Hids c0 Hc0) as (id' & E' & Hin).
           rewrite Hcid in E. assert (id' = id) by congruence. subst id'. done.
        -- apply NoDup_singleton.
      * intros c0 Hc0. rewrite Hres in Hc0. apply elem_of_app in Hc0 as [Hc0|Hc0].
        -- destruct (Hids c0 Hc0) as (id' & E & Hin). exists id'. split; [done|].
           rewrite Hs. apply elem_of_union. by right.
        -- apply list_elem_of_singleton in Hc0. subst c0. exists id. split; [done|].
           rewrite Hs. apply elem_of_union. left. by apply elem_of_singleton.
      * intros c0 Hc0. rewrite Hres in Hc0. apply elem_of_app in Hc0 as [Hc0|Hc0];
          [by apply Hkeep|].
        apply list_elem_of_singleton in Hc0. subst c0.
        exists processed, a, []. split; [done|]. split; [congruence|]. split; [done|].
        intros a' Ha' E. apply Hnew. apply Hseen. exists a'. split; [done|]. congruence.
Qed.

Lemma extract_inv_foldl (maxListings : Z) (todo processed : list Anchor)
    (st : ExtractState) :
  extract_inv processed st ->
  extract_inv (processed ++ todo) (foldl (extract_link maxListings) st todo).
Proof.
  revert processed st. induction todo as [|a todo IH]; intros processed st Hinv.
  - by rewrite app_nil_r.
  - cbn [foldl]. replace (processed ++ a :: todo) with ((processed ++ [a]) ++ todo)
      by (by rewrite <- app_assoc).
    apply IH. by apply extract_inv_step.
Qed.

(** C5: whatever the page, one extraction run never emits two candidates
    with the same listing id.  Each candidate is read off the first anchor
    of the page that carries its id: the anchors before it carry other
    ids, and later anchors with a seen id are skipped. *)
Theorem extract_no_duplicate_id (maxListings : Z) (doc : Document) :
  NoDup (map raw_listing_id (extract maxListings doc))
  /\ forall c, c ∈ extract maxListings doc ->
       exists before a after,
         listingLinks doc = before ++ a :: after
         /\ raw_listing_id c = link_id a
         /\ raw_url c = Some (a_href a)
         /\ forall a', a' ∈ before -> link_id a' <> link_id a.
Proof.
  assert (H0 : extract_inv [] {| results := []; seenIds := ∅ |}).
  { split; cbn [results seenIds].
    - intros id. split; [set_solver|]. intros (a & Ha & _). by apply not_elem_of_nil in Ha.
    - constructor.
    - intros c Hc. by apply not_elem_of_nil in Hc.
    - intros c Hc. by apply not_elem_of_nil in Hc. }
  destruct (extract_inv_foldl maxListings (listingLinks doc) [] _ H0) as [_ H2 _ H4].
  split; [exact H2 | exact H4].
Qed.

(** ** The year read off the title *)

Lemma consumed_prefix (st st' : mstate) (pre : jsstring) :
  rest st = pre ++ rest st' -> consumed st st' = pre.
Proof.
  intros E. unfold consumed. rewrite E, length_app.
  replace (length pre + length (rest st') - length (rest st'))%nat with (length pre) by lia.
  apply take_app_length.
Qed.

(** A match of the year pattern at a position covers four code units:
    19 or 20, then two digits. *)
Lemma year_re_at (st st' : mstate) :
  rmatch year_re st Some = Some st' ->
  exists a b c d,
    rest st = [a; b; c; d] ++ rest st'
    /\ ((a = 49 /\ b = 57) \/ (a = 50 /\ b = 48))
    /\ is_digit c = true /\ is_digit d = true.
Proof.
  destruct st as [pv s cs]. unfold year_re.
  cbn [rmatch Rep Lit js Chr prev rest caps].
  destruct (xorb _ _); [|discriminate].
  destruct s as [|a [|b [|c [|d tl]]]];
    cbn [rmatch rest advance set_cap caps prev N_of_ascii N.add N.mul Pos.add Pos.mul];
    repeat match goal with
           | |- context [if ?b then _ else _] => destruct b eqn:?; try discriminate
           | |- context [match (if ?b then _ else _) with _ => _ end] =>
               destruct b eqn:?; try discriminate
           | |- (match ?x with Some _ => _ | None => _ end = Some _) -> _ =>
               destruct x eqn:?; try discriminate
           | |- None = Some _ -> _ => discriminate
           end.
  all: intros [= <-]; cbn [rest]; exists a, b, c, d; bool_to_prop; subst;
    (split; [reflexivity|]); (split; [|done]); auto.
Qed.

(** C3, as stated, fails: the year of the title is not compared with the
    current year.  In 2026, a title that starts with 2099 gives a listing
    of the year 2099, not [null]. *)
Lemma far_future_year_is_kept :
  exists l, normalizeListingData
              (raw_of (js "2099 Toyota Corolla") (peso :: js "350,000") url1) = Some l
            /\ year l = Some (Num 2099)
            /\ ~ year_plausible 2026 l.
Proof.
  eexists. split; [vm_compute; reflexivity|]. split; [reflexivity|].
  intros [H | (y & H & Hy)]; [discriminate H|].
  cbn [year] in H. injection H as <-. lia.
Qed.

(** The bound of the design document is the one of the update API: a year
    passes [validateUpdateData] exactly when it lies between 1900 and the
    year after the current one. *)
Lemma update_year_is_checked (currentYear y : N) :
  CarListingService.validate_one currentYear (UYear (Some y)) = None
  <-> 1900 <= y <= currentYear + 1.
Proof.
  unfold CarListingService.validate_one.
  destruct (y <? 1900) eqn:E1; destruct (currentYear + 1 <? y) eqn:E2; cbn [orb];
    try apply N.ltb_lt in E1; try apply N.ltb_lt in E2;
    try apply N.ltb_ge in E1; try apply N.ltb_ge in E2;
    split; try discriminate; try lia; done.
Qed.

(** Where a match was found: the text before it, and the match of the
    pattern at that position. *)
Lemma search_split (r : regex) (s : jsstring) (before : option N) (idx : nat) (m : mresult) :
  search r before idx s = Some m ->
  exists pre st st', s = pre ++ rest st /\ caps st = []
                     /\ m_index m = (idx + length pre)%nat
                     /\ rmatch r st Some = Some st'
                     /\ m_caps m = caps st'
                     /\ m_whole m = consumed st st'.
Proof.
  revert before idx. induction s as [|c s IH]; intros before idx; cbn [search].
  - destruct (rmatch r _ Some) as [st'|] eqn:E; [|discriminate].
    intros [= <-]. exists [], {| prev := before; rest := []; caps := [] |}, st'.
    cbn [m_index m_caps m_whole rest caps length app]. rewrite Nat.add_0_r. by repeat split.
  - destruct (rmatch r _ Some) as [st'|] eqn:E.
    + intros [= <-]. exists [], {| prev := before; rest := c :: s; caps := [] |}, st'.
      cbn [m_index m_caps m_whole rest caps length app]. rewrite Nat.add_0_r.
      by repeat split.
    + intros H. apply IH in H as (pre & st & st' & Hs & C & Hi & H).
      exists (c :: pre), st, st'. cbn [app length]. rewrite Hs, Hi.
      split; [done|]. split; [done|]. split; [lia|done].
Qed.

Lemma digit_prefix_all (l : jsstring) :
  Forall (fun c => is_digit c = true) l -> digit_prefix l = l.
Proof.
  induction 1 as [|c l Hc _ IH]; [reflexivity|].
  cbn [digit_prefix]. by rewrite Hc, IH.
Qed.

Lemma year_digits_decimal (a b c d : N) :
  ((a = 49 /\ b = 57) \/ (a = 50 /\ b = 48)) ->
  is_digit c = true -> is_digit d = true ->
  parseInt10 [a; b; c; d] = Num (decimal [a; b; c; d])
  /\ Forall (fun x => is_digit x = true) [a; b; c; d]
  /\ 1900 <= decimal [a; b; c; d] <= 2099.
Proof.
  intros Hab Hc Hd.
  assert (Hall : Forall (fun x => is_digit x = true) [a; b; c; d]).
  { destruct Hab as [[-> ->]|[-> ->]]; by repeat constructor. }
  split; [|split; [exact Hall|]].
  - unfold parseInt10, parseFloat. by rewrite (digit_prefix_all _ Hall).
  - unfold decimal. cbn [foldl]. unfold digit_value, is_digit in *.
    bool_to_prop. lia.
Qed.

(** Every year from 1900 to 2099 is the year of some listing. *)
Lemma every_year_is_kept (y : N) :
  1900 <= y <= 2099 ->
  exists l, normalizeListingData (candidate_of_year y) = Some l /\ year l = Some (Num y).
Proof.
  intros Hy.
  assert (Hall : forallb year_kept (map N.of_nat (seq 1900 200)) = true)
    by (vm_compute; reflexivity).
  assert (Hin : In y (map N.of_nat (seq 1900 200))).
  { apply in_map_iff. exists (N.to_nat y). split; [apply N2Nat.id|].
    apply in_seq. lia. }
  pose proof (proj1 (forallb_forall _ _) Hall y Hin) as Hk.
  unfold year_kept in Hk.
  destruct (normalizeListingData (candidate_of_year y)) as [l|]; [|discriminate].
  exists l. split; [reflexivity|].
  destruct (year l) as [[|y']|]; try discriminate.
  apply N.eqb_eq in Hk. by subst y'.
Qed.

(** C3, amended: for every raw candidate accepted by normalization, the
    year of the listing is [null] exactly when the year pattern has no
    match in the title; otherwise it is the value of the four digits of
    the match, the leftmost one, which stand in the title and make a year
    between 1900 and 2099.  The year is not compared with the current
    year: every match is kept, and every year up to 2099 is the year of
    some listing. *)
Theorem year_is_19xx_or_20xx (rawData : RawData) (l : Listing) :
  normalizeListingData rawData = Some l ->
  Some (title l) = raw_title rawData
  /\ match str_match year_re (title l) with
     | None => year l = None
     | Some m =>
         exists pre post,
           title l = pre ++ m_whole m ++ post
           /\ m_index m = length pre
           /\ length (m_whole m) = 4%nat
           /\ Forall (fun c => is_digit c = true) (m_whole m)
           /\ year l = Some (Num (decimal (m_whole m)))
           /\ 1900 <= decimal (m_whole m) <= 2099
     end
  /\ (forall y, 1900 <= y <= 2099 ->
        exists l', normalizeListingData (candidate_of_year y) = Some l'
                   /\ year l' = Some (Num y)).
Proof.
  unfold normalizeListingData.
  destruct (raw_price_raw rawData) as [price_raw|]; [|discriminate].
  destruct (str_match price_re price_raw) as [priceMatch|]; [|discriminate].
  destruct (raw_title rawData) as [t|]; [|discriminate].
  intros [= <-]. cbn [year title]. split; [reflexivity|].
  split; [|exact every_year_is_kept].
  destruct (str_match year_re t) as [yearMatch|] eqn:E; [|reflexivity].
  apply search_split in E as (pre & st & st' & Ht & _ & Hi & E & _ & Hw).
  apply year_re_at in E as (a & b & c & d & E & Hab & Hc & Hd).
  rewrite (consumed_prefix _ _ _ E) in Hw.
  destruct (year_digits_decimal a b c d Hab Hc Hd) as (Hp & Hdig & Hy).
  exists pre, (rest st'). rewrite Hw, Hp.
  split; [by rewrite Ht, E|]. split; [exact Hi|].
  split; [reflexivity|]. split; [exact Hdig|]. split; [reflexivity|exact Hy].
Qed.

Lemma year_is_19xx_or_20xx_witness :
  exists l m,
    normalizeListingData (raw_of (js "Toyota Corolla 2099 Altis") (peso :: js "350,000") url1)
    = Some l
    /\ str_match year_re (title l) = Some m
    /\ m_whole m = js "2099"
    /\ year l = Some (Num 2099).
Proof.
  eexists. eexists. split; [vm_compute; reflexivity|].
  split; [vm_compute; reflexivity|]. split; [reflexivity|].
  destruct (year_is_19xx_or_20xx
              (raw_of (js "Toyota Corolla 2099 Altis") (peso :: js "350,000") url1)
              _ eq_refl) as (_ & H & _).
  exact (let '(ex_intro _ _ (ex_intro _ _ (conj _ (conj _ (conj _ (conj _ (conj Hy _))))))) := H
         in Hy).
Defined.

(** ** The price read off the price text *)

(** C4: the case the price step misses.  The class [[\d,]] of the pattern
    accepts a comma on its own, so a price text with a comma and no digit
    before it still matches: the group is stripped to the empty string,
    [parseFloat] gives [NaN], and the candidate is kept with that price
    instead of being discarded.  The extractor lets such a text through
    as a price. *)
Theorem comma_only_price_is_kept :
  test price_prefixed_re [peso; comma] = true
  /\ (exists m, str_match price_re [peso; comma] = Some m /\ group 2 m = Some [comma])
  /\ exists l, normalizeListingData
                 (raw_of (js "2018 Toyota Vios 1.3 E") [peso; comma] url1) = Some l
               /\ price l = NaN
               /\ currency l = js "PHP".
Proof.
  split; [vm_compute; reflexivity|]. split.
  - eexists. split; vm_compute; reflexivity.
  - eexists. split; [vm_compute; reflexivity|]. split; reflexivity.
Qed.

(** *** What the matcher reaches *)

(** Whatever a pattern hands to its continuation lies further on in the
    same input. *)
Lemma rmatch_reaches (r : regex) (st : mstate) (k : mstate -> option mstate)
    (res : mstate) :
  rmatch r st k = Some res ->
  exists st', rest st' `suffix_of` rest st /\ k st' = Some res.
Proof.
  revert st k. induction r as [|p|r1 IH1 r2 IH2|r1 IH1 r2 IH2|r1 IH1|n r1 IH1| |];
    intros st k; cbn [rmatch].
  - intros H. by exists st.
  - destruct (rest st) as [|c tl] eqn:E; [discriminate|].
    destruct (p c); [|discriminate]. intros H.
    exists (advance c tl st). split; [|done]. cbn [advance rest]. by apply suffix_cons_r.
  - intros H. apply IH1 in H as (st1 & S1 & H). apply IH2 in H as (st2 & S2 & H).
    exists st2. split; [by etrans|done].
  - destruct (rmatch r1 st k) eqn:E.
    + intros [= ->]. by apply IH1.
    + by apply IH2.
  - generalize (length (rest st)). intros fuel. revert st.
    induction fuel as [|fuel IHf]; intros st.
    + intros H. by exists st.
    + destruct (rmatch r1 st _) eqn:E.
      * intros [= ->]. apply IH1 in E as (st1 & S1 & E).
        destruct (progress_b st st1); [|discriminate].
        apply IHf in E as (st' & S' & E). exists st'. split; [by etrans|done].
      * intros H. by exists st.
  - intros H. apply IH1 in H as (st1 & S1 & H).
    exists (set_cap n (consumed st st1) st1). by split.
  - destruct (xorb _ _); [|discriminate]. intros H. by exists st.
  - destruct (prev st); [discriminate|]. intros H. by exists st.
Qed.

(** The equations of the matcher, one per construct. *)
Lemma rmatch_seq (r1 r2 : regex) (st : mstate) (k : mstate -> option mstate) :
  rmatch (Seq r1 r2) st k = rmatch r1 st (fun st1 => rmatch r2 st1 k).
Proof. reflexivity. Qed.

Lemma rmatch_alt (r1 r2 : regex) (st : mstate) (k : mstate -> option mstate) :
  rmatch (Alt r1 r2) st k =
  match rmatch r1 st k with Some res => Some res | None => rmatch r2 st k end.
Proof. reflexivity. Qed.

Lemma rmatch_group (n : nat) (r : regex) (st : mstate) (k : mstate -> option mstate) :
  rmatch (Group n r) st k = rmatch r st (fun st1 => k (set_cap n (consumed st st1) st1)).
Proof. reflexivity. Qed.

Lemma rmatch_class (p : N -> bool) (st : mstate) (k : mstate -> option mstate) :
  rmatch (Class p) st k =
  match rest st with
  | c :: tl => if p c then k (advance c tl st) else None
  | [] => None
  end.
Proof. reflexivity. Qed.

Lemma rmatch_empty (st : mstate) (k : mstate -> option mstate) :
  rmatch Empty st k = k st.
Proof. reflexivity. Qed.

Lemma price_re_at (st st' : mstate) :
  rmatch price_re st Some = Some st' ->
  exists c, c ∈ rest st /\ is_digit_or_comma c = true.
Proof.
  unfold price_re, Plus. rewrite rmatch_seq. intros H.
  apply rmatch_reaches in H as (st1 & S1 & H). rewrite rmatch_seq in H.
  apply rmatch_reaches in H as (st2 & S2 & H).
  rewrite rmatch_group, rmatch_seq, rmatch_class in H.
  destruct (rest st2) as [|c tl] eqn:E; [discriminate|].
  destruct (is_digit_or_comma c) eqn:Hc; [|discriminate].
  exists c. split; [|done].
  destruct S1 as [k1 ->], S2 as [k2 ->].
  apply elem_of_app. right. apply elem_of_app. right. by left.
Qed.

Lemma search_price (s : jsstring) (before : option N) (idx : nat) (m : mresult) :
  search price_re before idx s = Some m ->
  exists c, c ∈ s /\ is_digit_or_comma c = true.
Proof.
  revert before idx. induction s as [|c s IH]; intros before idx; cbn [search].
  - destruct (rmatch price_re _ Some) as [st'|] eqn:E; [|discriminate].
    intros _. by apply price_re_at in E.
  - destruct (rmatch price_re _ Some) as [st'|] eqn:E.
    + intros _. by apply price_re_at in E.
    + intros H. apply IH in H as (c' & Hc' & H). exists c'. split; [by right|done].
Qed.

(** A price text with neither a digit nor a comma is not parsed: the
    candidate is discarded. *)
Lemma price_without_digit_or_comma (rawData : RawData) (price_raw : jsstring) :
  raw_price_raw rawData = Some price_raw ->
  (forall c, c ∈ price_raw -> is_digit_or_comma c = false) ->
  normalizeListingData rawData = None.
Proof.
  intros Hp Hno. unfold normalizeListingData. rewrite Hp.
  destruct (str_match price_re price_raw) as [m|] eqn:E; [|reflexivity].
  apply search_price in E as (c & Hc & H). by rewrite (Hno c Hc) in H.
Qed.

(** *** A digit group is read in full *)

Lemma sep_not_upper (c : N) : is_price_sep c = true -> is_upper c = false.
Proof.
  intros H. apply not_true_iff_false. intros Hu. class_cases; lia.
Qed.

Lemma digit_or_comma_not_upper (c : N) : is_digit_or_comma c = true -> is_upper c = false.
Proof.
  intros H. apply not_true_iff_false. intros Hu. class_cases; lia.
Qed.

Lemma digit_or_comma_not_sep (c : N) : is_digit_or_comma c = true -> is_price_sep c = false.
Proof.
  intros H. apply not_true_iff_false. intros Hu. class_cases; lia.
Qed.

Lemma star_class_unfold (p : N -> bool) (st : mstate) (k : mstate -> option mstate) :
  rmatch (Star (Class p)) st k =
  match rest st with
  | c :: tl =>
      if p c then
        match rmatch (Star (Class p)) (advance c tl st) k with
        | Some res => Some res
        | None => k st
        end
      else k st
  | [] => k st
  end.
Proof.
  destruct st as [pv [|c tl] cs]; [reflexivity|].
  cbn [rmatch rest length].
  destruct (p c); [|reflexivity].
  assert (Hp : progress_b {| prev := pv; rest := c :: tl; caps := cs |}
                 (advance c tl {| prev := pv; rest := c :: tl; caps := cs |}) = true)
    by (apply Nat.ltb_lt; cbn; lia).
  rewrite Hp. reflexivity.
Qed.

(** A greedy [p*] on a run of [p] that ends where [p] fails hands the
    whole run to its continuation first. *)
Lemma star_class_run (p : N -> bool) (run tl : jsstring) (st : mstate)
    (k : mstate -> option mstate) (res : mstate) :
  rest st = run ++ tl ->
  Forall (fun c => p c = true) run ->
  (forall c tl', tl = c :: tl' -> p c = false) ->
  k (moved run tl st) = Some res ->
  rmatch (Star (Class p)) st k = Some res.
Proof.
  revert st. induction run as [|c run IH]; intros st E Hrun Htl Hk.
  - rewrite star_class_unfold. cbn [app] in E.
    assert (Hst : moved [] tl st = st) by (destruct st; cbn in *; by subst).
    rewrite Hst in Hk. rewrite E. destruct tl as [|c tl']; [done|].
    by rewrite (Htl c tl' eq_refl).
  - rewrite star_class_unfold, E. cbn [app].
    apply Forall_cons in Hrun as [Hc Hrun]. rewrite Hc.
    rewrite (IH (advance c (run ++ tl) st)); [reflexivity|reflexivity|done|done|].
    rewrite <- Hk. unfold moved. cbn [advance prev caps]. f_equal.
    destruct run as [|c' run']; [reflexivity|].
    rewrite last_cons_cons. destruct (last (c' :: run')) eqn:El; [reflexivity|].
    by apply last_None in El.
Qed.

Lemma search_here (r : regex) (before : option N) (idx : nat) (s : jsstring)
    (st' : mstate) :
  rmatch r {| prev := before; rest := s; caps := [] |} Some = Some st' ->
  search r before idx s =
  Some {| m_index := idx;
          m_whole := consumed {| prev := before; rest := s; caps := [] |} st';
          m_caps := caps st' |}.
Proof. intros H. destruct s; cbn [search]; by rewrite H. Qed.

Lemma after_code (code seps ds tail : jsstring) (st : mstate) :
  price_shape code seps ds tail ->
  rest st = seps ++ ds ++ tail ->
  exists pv, forall (k : mstate -> option mstate) (res : mstate),
    k {| prev := pv; rest := tail; caps := (2%nat, ds) :: caps st |} = Some res ->
    rmatch (Seq (Star (Class is_price_sep)) (Group 2 (Plus (Class is_digit_or_comma))))
           st k = Some res.
Proof.
  intros [_ Hseps Hds Hdigit Htail] E. destruct ds as [|d ds'].
  { destruct Hdigit as (d & Hd & _). by apply not_elem_of_nil in Hd. }
  apply Forall_cons in Hds as [Hd Hds'].
  eexists. intros k res Hk.
  rewrite rmatch_seq.
  apply (star_class_run _ seps ((d :: ds') ++ tail)); [exact E|exact Hseps| |].
  { intros c tl' [= <- _]. by apply digit_or_comma_not_sep. }
  unfold Plus. rewrite rmatch_group, rmatch_seq, rmatch_class.
  cbn [moved rest app]. rewrite Hd.
  apply (star_class_run _ ds' tail); [reflexivity|exact Hds'|exact Htail|].
  cbn [moved advance set_cap prev rest caps].
  rewrite (consumed_prefix _ _ (d :: ds')) by reflexivity.
  exact Hk.
Qed.

Lemma price_re_digit_group (code seps ds tail : jsstring) :
  price_shape code seps ds tail ->
  exists pv,
    rmatch price_re {| prev := None; rest := code ++ seps ++ ds ++ tail; caps := [] |} Some
    = Some {| prev := pv; rest := tail; caps := (2%nat, ds) :: code_caps code |}.
Proof.
  intros Hshape. pose proof Hshape as [Hcode Hseps Hds Hdigit Htail].
  unfold price_re, Opt. rewrite rmatch_seq, rmatch_alt, rmatch_group.
  destruct Hcode as [-> | [Hlen Hup]].
  - cbn [app Rep]. rewrite rmatch_seq, rmatch_class. cbn [rest].
    assert (Hhead : exists c tl, seps ++ ds ++ tail = c :: tl /\ is_upper c = false).
    { destruct seps as [|c seps'].
      - destruct ds as [|d ds'].
        + destruct Hdigit as (d & Hd & _). by apply not_elem_of_nil in Hd.
        + apply Forall_cons in Hds as [Hd _]. exists d, (ds' ++ tail).
          split; [reflexivity|]. by apply digit_or_comma_not_upper.
      - apply Forall_cons in Hseps as [Hc _]. exists c, (seps' ++ ds ++ tail).
        split; [reflexivity|]. by apply sep_not_upper. }
    destruct Hhead as (c & tl & E & Hc). rewrite E, Hc, <- E.
    rewrite rmatch_empty.
    destruct (after_code [] seps ds tail
                {| prev := None; rest := seps ++ ds ++ tail; caps := [] |} Hshape eq_refl)
      as [pv H].
    exists pv. by apply H.
  - destruct code as [|c1 [|c2 [|c3 [|c4 code']]]]; try discriminate Hlen.
    apply Forall_cons in Hup as [H1 Hup]. apply Forall_cons in Hup as [H2 Hup].
    apply Forall_cons in Hup as [H3 _].
    cbn [app Rep]. rewrite rmatch_seq, rmatch_class. cbn [rest]. rewrite H1.
    rewrite rmatch_seq, rmatch_class. cbn [rest advance]. rewrite H2.
    rewrite rmatch_seq, rmatch_class. cbn [rest advance]. rewrite H3.
    rewrite rmatch_empty.
    rewrite (consumed_prefix _ _ [c1; c2; c3]) by reflexivity.
    set (st1 := set_cap 1 [c1; c2; c3] _).
    destruct (after_code [c1; c2; c3] seps ds tail st1 Hshape eq_refl) as [pv H].
    exists pv. rewrite (H Some _ eq_refl). reflexivity.
Qed.

(** The amount of a digit group: its digits, commas dropped. *)
Lemma parseFloat_digit_group (ds : jsstring) :
  Forall (fun c => is_digit_or_comma c = true) ds ->
  (exists d, d ∈ ds /\ is_digit d = true) ->
  parseFloat (strip_commas ds) = Num (decimal (strip_commas ds)).
Proof.
  intros Hds (d & Hd & Hdig). unfold parseFloat.
  assert (Hall : Forall (fun c => is_digit c = true) (strip_commas ds)).
  { apply Forall_forall. intros c Hc. apply list_elem_of_filter in Hc as [Hne Hc].
    rewrite Forall_forall in Hds. specialize (Hds c Hc).
    unfold is_digit_or_comma in Hds. apply orb_true_iff in Hds as [H|H]; [done|].
    apply N.eqb_eq in H. done. }
  rewrite (digit_prefix_all _ Hall).
  assert (Hin : d ∈ strip_commas ds).
  { apply list_elem_of_filter. split; [|done]. intros ->. discriminate Hdig. }
  destruct (strip_commas ds); [by apply not_elem_of_nil in Hin | reflexivity].
Qed.

(** The part of C4 that holds.  For a price text made of an optional
    three-letter code, separators (white space and currency symbols), a
    group of digits and commas with at least one digit, and a remainder
    that does not continue the group, the price step returns the digits
    of the group, commas dropped, as the amount, and the code as the
    currency, PHP when there is none. *)
Lemma price_of_digit_group (rawData : RawData) (t code seps ds tail : jsstring) :
  price_shape code seps ds tail ->
  raw_price_raw rawData = Some (code ++ seps ++ ds ++ tail) ->
  raw_title rawData = Some t ->
  exists l, normalizeListingData rawData = Some l
            /\ price l = Num (decimal (strip_commas ds))
            /\ currency l = match code with [] => js "PHP" | _ => code end.
Proof.
  intros Hshape Hp Ht. pose proof Hshape as [Hcode _ Hds Hdigit _].
  destruct (price_re_digit_group _ _ _ _ Hshape) as [pv Hm].
  unfold normalizeListingData. rewrite Hp, Ht. unfold str_match at 1.
  rewrite (search_here _ _ _ _ _ Hm).
  eexists. split; [reflexivity|]. cbn [price currency group m_caps caps lookup_cap Nat.eqb].
  change (default [] (Some ds)) with ds.
  rewrite (parseFloat_digit_group _ Hds Hdigit). split; [reflexivity|].
  destruct Hcode as [-> | [Hlen _]]; [reflexivity|].
  destruct code as [|c1 code']; [discriminate Hlen|]. reflexivity.
Qed.

Lemma price_of_digit_group_example :
  exists l, normalizeListingData (raw_of (js "2018 Toyota Vios 1.3 E") (js "USD 45,000") url1)
            = Some l
            /\ price l = Num 45000 /\ currency l = js "USD".
Proof.
  assert (Hshape : price_shape (js "USD") (js " ") (js "45,000") []).
  { split.
    - right. split; [reflexivity|]. repeat constructor.
    - repeat constructor.
    - repeat constructor.
    - exists 52. split; [|reflexivity]. by left.
    - intros c tl' [=]. }
  exact (price_of_digit_group
           (raw_of (js "2018 Toyota Vios 1.3 E") (js "USD 45,000") url1)
           _ _ _ _ _ Hshape eq_refl eq_refl).
Defined.

(** * Further properties of the code *)

(** ** When the price step gives up *)

(** A greedy [p*] whose continuation always succeeds succeeds. *)
Lemma star_class_total (p : N -> bool) (k : mstate -> option mstate) (st : mstate) :
  (forall st', is_Some (k st')) -> is_Some (rmatch (Star (Class p)) st k).
Proof.
  intros Hk. destruct st as [pv s cs]. revert pv cs.
  induction s as [|c s IH]; intros pv cs; rewrite star_class_unfold; cbn [rest].
  - apply Hk.
  - destruct (p c); [|apply Hk].
    destruct (IH (Some c) cs) as [res Hres]. unfold advance. cbn [caps].
    rewrite Hres. eauto.
Qed.

(** The price pattern matches wherever a digit or a comma stands. *)
Lemma price_re_at_digit_or_comma (pv : option N) (c : N) (tl : jsstring) :
  is_digit_or_comma c = true ->
  is_Some (rmatch price_re {| prev := pv; rest := c :: tl; caps := [] |} Some).
Proof.
  intros Hc. unfold price_re, Opt, Plus.
  rewrite rmatch_seq, rmatch_alt, rmatch_group. cbn [Rep].
  rewrite rmatch_seq, rmatch_class. cbn [rest].
  rewrite (digit_or_comma_not_upper c Hc), rmatch_empty, rmatch_seq.
  rewrite star_class_unfold. cbn [rest].
  rewrite (digit_or_comma_not_sep c Hc).
  rewrite rmatch_group, rmatch_seq, rmatch_class. cbn [rest]. rewrite Hc.
  apply star_class_total. eauto.
Qed.

(** [search] finds a match as soon as one exists at some position. *)
Lemma search_finds (r : regex) (pre s : jsstring) (before : option N) (idx : nat) :
  (forall pv, is_Some (rmatch r {| prev := pv; rest := s; caps := [] |} Some)) ->
  is_Some (search r before idx (pre ++ s)).
Proof.
  intros Hs. revert before idx. induction pre as [|c pre IH]; intros before idx.
  - cbn [app]. destruct (Hs before) as [st' H]. destruct s; cbn [search]; rewrite H; eauto.
  - cbn [app search]. destruct (rmatch r _ Some); [eauto|]. apply IH.
Qed.

Lemma str_match_price_None (s : jsstring) :
  str_match price_re s = None <-> (forall c, c ∈ s -> is_digit_or_comma c = false).
Proof.
  split.
  - intros Hnone c Hc. destruct (is_digit_or_comma c) eqn:E; [|reflexivity].
    apply list_elem_of_split in Hc as (pre & tl & ->).
    assert (H : is_Some (str_match price_re (pre ++ c :: tl))).
    { apply search_finds. intros pv. by apply price_re_at_digit_or_comma. }
    rewrite Hnone in H. by destruct H.
  - intros Hno. destruct (str_match price_re s) as [m|] eqn:E; [|reflexivity].
    apply search_price in E as (c & Hc & H). by rewrite (Hno c Hc) in H.
Qed.

(** X1: a candidate with a title and a price text is discarded by
    [normalizeListingData] exactly when its price text holds neither a
    digit nor a comma; any other price text gives a listing. *)
Theorem normalize_null_iff (rawData : RawData) (t price_raw : jsstring) :
  raw_title rawData = Some t ->
  raw_price_raw rawData = Some price_raw ->
  normalizeListingData rawData = None
  <-> (forall c, c ∈ price_raw -> is_digit_or_comma c = false).
Proof.
  intros Ht Hp. rewrite <- str_match_price_None.
  unfold normalizeListingData. rewrite Hp, Ht.
  destruct (str_match price_re price_raw); split; intros H; done.
Qed.

Lemma normalize_null_iff_witness :
  normalizeListingData (raw_of (js "2020 Honda Civic RS Turbo") (js "Free") url2) = None
  <-> (forall c, c ∈ js "Free" -> is_digit_or_comma c = false).
Proof.
  exact (normalize_null_iff (raw_of (js "2020 Honda Civic RS Turbo") (js "Free") url2)
           (js "2020 Honda Civic RS Turbo") (js "Free") eq_refl eq_refl).
Defined.

(** ** What a match consists of *)

(** As [rmatch_reaches], with the captures: a pattern without a group
    leaves them as they are. *)
Lemma rmatch_reaches_caps (r : regex) (st : mstate) (k : mstate -> option mstate)
    (res : mstate) :
  group_free r = true ->
  rmatch r st k = Some res ->
  exists st', rest st' `suffix_of` rest st /\ caps st' = caps st /\ k st' = Some res.
Proof.
  revert st k. induction r as [|p|r1 IH1 r2 IH2|r1 IH1 r2 IH2|r1 IH1|n r1 IH1| |];
    intros st k Hfree; cbn [rmatch]; cbn [group_free] in Hfree.
  - intros H. by exists st.
  - destruct (rest st) as [|c tl] eqn:E; [discriminate|].
    destruct (p c); [|discriminate]. intros H.
    exists (advance c tl st). split; [|done]. cbn [advance rest]. by apply suffix_cons_r.
  - apply andb_true_iff in Hfree as [F1 F2].
    intros H. apply IH1 in H as (st1 & S1 & C1 & H); [|done].
    apply IH2 in H as (st2 & S2 & C2 & H); [|done].
    exists st2. split; [by etrans|]. split; [congruence|done].
  - apply andb_true_iff in Hfree as [F1 F2].
    destruct (rmatch r1 st k) eqn:E.
    + intros [= ->]. by apply IH1.
    + by apply IH2.
  - generalize (length (rest st)). intros fuel. revert st.
    induction fuel as [|fuel IHf]; intros st.
    + intros H. by exists st.
    + destruct (rmatch r1 st _) eqn:E.
      * intros [= ->]. apply IH1 in E as (st1 & S1 & C1 & E); [|done].
        destruct (progress_b st st1); [|discriminate].
        apply IHf in E as (st' & S' & C' & E). exists st'.
        split; [by etrans|]. split; [congruence|done].
      * intros H. by exists st.
  - discriminate.
  - destruct (xorb _ _); [|discriminate]. intros H. by exists st.
  - destruct (prev st); [discriminate|]. intros H. by exists st.
Qed.

(** A literal consumes exactly its code units. *)
Lemma lit_reaches (l : jsstring) (st : mstate) (k : mstate -> option mstate)
    (res : mstate) :
  rmatch (Lit l) st k = Some res ->
  exists st', rest st = l ++ rest st' /\ caps st' = caps st /\ k st' = Some res.
Proof.
  revert st. induction l as [|c l IH]; intros st; cbn [Lit].
  - rewrite rmatch_empty. intros H. by exists st.
  - unfold Chr. rewrite rmatch_seq, rmatch_class.
    destruct (rest st) as [|c' tl] eqn:E; [discriminate|].
    destruct (c =? c') eqn:Ec; [|discriminate]. apply N.eqb_eq in Ec. subst c'.
    intros H. apply IH in H as (st' & E' & C' & H). exists st'.
    cbn [advance rest caps] in E', C'. split; [by rewrite E'|]. done.
Qed.

(** A greedy [p*] consumes a run of [p]. *)
Lemma star_class_reaches (p : N -> bool) (st : mstate) (k : mstate -> option mstate)
    (res : mstate) :
  rmatch (Star (Class p)) st k = Some res ->
  exists run st', rest st = run ++ rest st'
                  /\ Forall (fun c => p c = true) run
                  /\ caps st' = caps st
                  /\ k st' = Some res.
Proof.
  destruct st as [pv s cs]. revert pv.
  induction s as [|c s IH]; intros pv; rewrite star_class_unfold; cbn [rest].
  - intros H. exists [], {| prev := pv; rest := []; caps := cs |}. by repeat split.
  - destruct (p c) eqn:Hc.
    + unfold advance. cbn [caps].
      destruct (rmatch (Star (Class p)) _ k) as [res'|] eqn:E.
      * intros [= ->]. apply IH in E as (run & st' & E1 & Hrun & C' & H).
        exists (c :: run), st'. cbn [rest caps] in *. split; [by rewrite E1|].
        split; [by constructor|]. done.
      * intros H. exists [], {| prev := pv; rest := c :: s; caps := cs |}. by repeat split.
    + intros H. exists [], {| prev := pv; rest := c :: s; caps := cs |}. by repeat split.
Qed.

(** A result of [search] is a match at some position of the input. *)
Lemma search_at (r : regex) (s : jsstring) (before : option N) (idx : nat) (m : mresult) :
  search r before idx s = Some m ->
  exists st st', rest st `suffix_of` s /\ caps st = []
                 /\ rmatch r st Some = Some st'
                 /\ m_caps m = caps st'
                 /\ m_whole m = consumed st st'.
Proof.
  revert before idx. induction s as [|c s IH]; intros before idx; cbn [search].
  - destruct (rmatch r _ Some) as [st'|] eqn:E; [|discriminate].
    intros [= <-]. eexists _, st'. split; [|split; [|split; [exact E|split; reflexivity]]];
      reflexivity.
  - destruct (rmatch r _ Some) as [st'|] eqn:E.
    + intros [= <-]. eexists _, st'.
      split; [|split; [|split; [exact E|split; reflexivity]]]; reflexivity.
    + intros H. apply IH in H as (st & st' & S & C & H).
      exists st, st'. split; [by apply suffix_cons_r|]. done.
Qed.

Lemma find_first_spec {A : Type} (p : A -> bool) (l : list A) (x : A) :
  find_first p l = Some x -> p x = true /\ x ∈ l.
Proof.
  induction l as [|y l IH]; [discriminate|]. cbn [find_first].
  destruct (p y) eqn:E.
  - intros [= ->]. split; [done|by left].
  - intros H. destruct (IH H). split; [done|by right].
Qed.

(** ** The candidates of the extractor *)

(** One call of the callback adds at most one candidate, built as
    [candidate_of] says, and only below the cap. *)
Lemma extract_link_emits (maxListings : Z) (st : ExtractState) (a : Anchor) :
  results (extract_link maxListings st a) = results st
  \/ exists c, results (extract_link maxListings st a) = results st ++ [c]
               /\ candidate_of a c
               /\ (Z.of_nat (length (results st)) < maxListings)%Z.
Proof.
  unfold extract_link.
  destruct (str_match item_re (a_href a)) as [urlMatch|] eqn:Em; [|by left].
  destruct (bool_decide _); [by left|].
  destruct (maxListings <=? Z.of_nat (length (results st)))%Z eqn:Ecap; [by left|].
  apply Z.leb_gt in Ecap.
  destruct (container_of a) as [container|] eqn:Ec; [|by left].
  destruct (find_first _ _) as [price_raw|] eqn:Ep; [|by left].
  match goal with
  | |- context [match find_first ?p ?l with _ => _ end] =>
      destruct (find_first p l) as [t|] eqn:Et; [|by left]
  end.
  destruct (truthy (a_href a)); [|by left].
  right. eexists. split; [reflexivity|]. split; [|exact Ecap].
  apply find_first_spec in Ep as [Hp _]. apply find_first_spec in Et as [Ht _].
  apply andb_true_iff in Ht as [Ht Hd]. apply andb_true_iff in Ht as [Ht Hc].
  apply andb_true_iff in Ht as [Hl Hb].
  exists urlMatch, container, t, price_raw.
  split; [done|]. split; [done|]. split; [done|].
  split; [by apply Nat.ltb_lt|]. split; [by apply negb_true_iff|].
  split; [by apply negb_true_iff|]. split; [|reflexivity].
  intros ->. unfold differs, str_eqb in Hd. apply negb_true_iff in Hd.
  by apply bool_decide_eq_false in Hd.
Qed.

Lemma extract_candidates (maxListings : Z) (links : list Anchor) (st : ExtractState) :
  Forall (fun c => exists a, candidate_of a c) (results st) ->
  (Z.of_nat (length (results st)) <= Z.max 0 maxListings)%Z ->
  Forall (fun c => exists a, candidate_of a c)
         (results (foldl (extract_link maxListings) st links))
  /\ (Z.of_nat (length (results (foldl (extract_link maxListings) st links)))
      <= Z.max 0 maxListings)%Z.
Proof.
  revert st. induction links as [|a links IH]; intros st Hall Hlen; [done|].
  cbn [foldl]. apply IH.
  - destruct (extract_link_emits maxListings st a) as [-> | (c & -> & Hc & _)]; [done|].
    apply Forall_app. split; [done|]. constructor; [by exists a|constructor].
  - destruct (extract_link_emits maxListings st a) as [-> | (c & -> & _ & Hcap)]; [done|].
    rewrite length_app. cbn [length]. lia.
Qed.

(** X2: the extractor never returns more candidates than
    [maxListings]; with a cap of zero or less it returns none. *)
Theorem extract_respects_cap (maxListings : Z) (doc : Document) :
  (Z.of_nat (length (extract maxListings doc)) <= Z.max 0 maxListings)%Z.
Proof.
  unfold extract.
  apply (extract_candidates maxListings (listingLinks doc)
           {| results := []; seenIds := ∅ |}); cbn [results length]; [constructor|lia].
Qed.

Lemma price_test_has_digit_or_comma (s : jsstring) :
  (test price_prefixed_re s || test price_suffixed_re s) = true ->
  exists c, c ∈ s /\ is_digit_or_comma c = true.
Proof.
  intros H. apply orb_true_iff in H as [H|H]; unfold test in H.
  - destruct (str_match price_prefixed_re s) as [m|] eqn:E; [|discriminate].
    apply search_at in E as (st & st' & S & _ & E & _).
    unfold price_prefixed_re, Plus in E. rewrite rmatch_seq in E.
    apply rmatch_reaches in E as (st1 & S1 & E). rewrite rmatch_seq in E.
    apply rmatch_reaches in E as (st2 & S2 & E). rewrite rmatch_seq in E.
    apply rmatch_reaches in E as (st3 & S3 & E). rewrite rmatch_seq, rmatch_class in E.
    destruct (rest st3) as [|c tl] eqn:E3; [discriminate|].
    destruct (is_digit_or_comma c) eqn:Hc; [|discriminate].
    exists c. split; [|done].
    assert (Hsuf : (c :: tl) `suffix_of` s) by (by repeat (etrans; [eassumption|])).
    destruct Hsuf as [k ->]. apply elem_of_app. right. by left.
  - destruct (str_match price_suffixed_re s) as [m|] eqn:E; [|discriminate].
    apply search_at in E as (st & st' & S & _ & E & _).
    unfold price_suffixed_re, Plus in E. rewrite rmatch_seq in E.
    apply rmatch_reaches in E as (st1 & S1 & E). rewrite !rmatch_seq, rmatch_class in E.
    destruct (rest st1) as [|c tl] eqn:E1; [discriminate|].
    destruct (is_digit_or_comma c) eqn:Hc; [|discriminate].
    exists c. split; [|done].
    assert (Hsuf : (c :: tl) `suffix_of` s) by (by repeat (etrans; [eassumption|])).
    destruct Hsuf as [k ->]. apply elem_of_app. right. by left.
Qed.

(** A match of the item pattern: [/item/], then the digits of group 1. *)
Lemma item_re_at (st st' : mstate) :
  caps st = [] ->
  rmatch item_re st Some = Some st' ->
  exists id, rest st = js "/item/" ++ id ++ rest st'
             /\ caps st' = [(1%nat, id)]
             /\ id <> []
             /\ Forall (fun c => is_digit c = true) id.
Proof.
  intros Hcaps. unfold item_re, Plus. rewrite rmatch_seq. intros H.
  apply lit_reaches in H as (st1 & E1 & C1 & H).
  rewrite rmatch_group, rmatch_seq, rmatch_class in H.
  destruct (rest st1) as [|d tl] eqn:E; [discriminate|].
  destruct (is_digit d) eqn:Hd; [|discriminate].
  apply star_class_reaches in H as (run & st2 & E2 & Hrun & C2 & H).
  injection H as <-. cbn [advance rest caps] in E2, C2.
  rewrite (consumed_prefix st1 st2 (d :: run)) by (by rewrite E, E2).
  exists (d :: run). cbn [set_cap rest caps].
  split; [by rewrite E1, E2|]. split; [by rewrite C2, C1, Hcaps|].
  split; [done|by constructor].
Qed.

Lemma str_match_item (url : jsstring) (m : mresult) :
  str_match item_re url = Some m ->
  exists pre id post, url = pre ++ js "/item/" ++ id ++ post
                      /\ group 1 m = Some id
                      /\ id <> []
                      /\ Forall (fun c => is_digit c = true) id.
Proof.
  intros H. apply search_at in H as (st & st' & [pre ->] & C & H & Hm & _).
  apply item_re_at in H as (id & E & C' & Hne & Hd); [|done].
  exists pre, id, (rest st'). split; [by rewrite E|].
  split; [|done]. unfold group. rewrite Hm, C'. reflexivity.
Qed.

(** What [normalizeListingData] makes of a candidate of the extractor. *)
Lemma candidate_normalizes (a : Anchor) (c : RawData) :
  candidate_of a c ->
  exists l id, normalizeListingData c = Some l
               /\ source_url l = raw_url c
               /\ Some (title l) = raw_title c
               /\ listing_id l = Some id
               /\ raw_listing_id c = Some id
               /\ id <> []
               /\ Forall (fun x => is_digit x = true) id.
Proof.
  intros (m & container & t & price_raw & Hm & _ & Hprice & _ & _ & _ & _ & ->).
  apply price_test_has_digit_or_comma in Hprice as (x & Hx & Hdc).
  destruct (str_match price_re price_raw) as [pm|] eqn:Ep.
  2:{ pose proof (proj1 (str_match_price_None price_raw) Ep x Hx) as Hno.
      by rewrite Hno in Hdc. }
  destruct (str_match_item _ _ Hm) as (pre & id & post & _ & Hid & Hne & Hd).
  unfold normalizeListingData.
  cbn [raw_price_raw raw_title raw_url raw_listing_id extractListingId].
  rewrite Ep, Hm. eexists _, id. split; [reflexivity|].
  cbn [source_url title listing_id]. rewrite Hid. by repeat split.
Qed.

Lemma omap_normalized (cs : list RawData) :
  Forall (fun c => exists a, candidate_of a c) cs ->
  map source_url (omap normalizeListingData cs) = map raw_url cs
  /\ map listing_id (omap normalizeListingData cs) = map raw_listing_id cs
  /\ Forall (fun l => exists id, listing_id l = Some id /\ id <> []
                                  /\ Forall (fun x => is_digit x = true) id)
            (omap normalizeListingData cs).
Proof.
  induction 1 as [|c cs (a & Hc) _ (IH1 & IH2 & IH3)]; [by repeat split|].
  destruct (candidate_normalizes a c Hc) as (l & id & Hl & Hu & _ & Hi & Hr & Hne & Hd).
  cbn [omap list_omap]. rewrite Hl. cbn [map].
  rewrite <- Hu, Hr, <- Hi, IH1, IH2.
  split; [done|]. split; [done|]. constructor; [|done]. by exists id.
Qed.

(** X3: normalization never drops a candidate of the extractor.  The
    listings of a run are the candidates of the page, one for one and in
    order: same number, same URLs. *)
Theorem extracted_candidates_all_normalize (maxListings : Z) (doc : Document) :
  length (normalizeAll (extract maxListings doc)) = length (extract maxListings doc)
  /\ map source_url (normalizeAll (extract maxListings doc))
     = map raw_url (extract maxListings doc).
Proof.
  assert (Hall : Forall (fun c => exists a, candidate_of a c) (extract maxListings doc)).
  { unfold extract.
    apply (extract_candidates maxListings (listingLinks doc)
             {| results := []; seenIds := ∅ |}); cbn [results length]; [constructor|lia]. }
  destruct (omap_normalized _ Hall) as (H1 & _ & _).
  rewrite normalizeAll_omap. split; [|exact H1].
  by rewrite <- (length_map source_url), H1, length_map.
Qed.

(** X4: the listing id stored with a listing is the id the extractor
    deduplicated on: [extractListingId] reads the same id off the URL, a
    non-empty run of digits, so the listings of a run have pairwise
    distinct ids. *)
Theorem listing_ids_agree (maxListings : Z) (doc : Document) :
  map listing_id (normalizeAll (extract maxListings doc))
  = map raw_listing_id (extract maxListings doc)
  /\ NoDup (map listing_id (normalizeAll (extract maxListings doc)))
  /\ Forall (fun l => exists id, listing_id l = Some id /\ id <> []
                                  /\ Forall (fun x => is_digit x = true) id)
            (normalizeAll (extract maxListings doc)).
Proof.
  assert (Hall : Forall (fun c => exists a, candidate_of a c) (extract maxListings doc)).
  { unfold extract.
    apply (extract_candidates maxListings (listingLinks doc)
             {| results := []; seenIds := ∅ |}); cbn [results length]; [constructor|lia]. }
  destruct (omap_normalized _ Hall) as (_ & H2 & H3).
  rewrite normalizeAll_omap. split; [exact H2|]. split; [|exact H3].
  rewrite H2. unfold extract.
  assert (H0 : extract_inv [] {| results := []; seenIds := ∅ |}).
  { split; cbn [results seenIds].
    - intros id. split; [set_solver|]. intros (a & Ha & _). by apply not_elem_of_nil in Ha.
    - constructor.
    - intros c Hc. by apply not_elem_of_nil in Hc.
    - intros c Hc. by apply not_elem_of_nil in Hc. }
  by destruct (extract_inv_foldl maxListings (listingLinks doc) [] _ H0) as [_ Hnd _ _].
Qed.

(** ** The currency and the mileage of a listing *)

(** The separators and the digit group of a match of the price pattern. *)
Lemma price_tail_shape (st res : mstate) :
  rmatch (Seq (Star (Class is_price_sep)) (Group 2 (Plus (Class is_digit_or_comma))))
         st Some = Some res ->
  exists seps ds,
    rest st = seps ++ ds ++ rest res
    /\ Forall (fun c => is_price_sep c = true) seps
    /\ Forall (fun c => is_digit_or_comma c = true) ds
    /\ ds <> []
    /\ caps res = (2%nat, ds) :: caps st.
Proof.
  unfold Plus. rewrite rmatch_seq. intros H.
  apply star_class_reaches in H as (seps & st1 & E1 & Hseps & C1 & H).
  rewrite rmatch_group, rmatch_seq, rmatch_class in H.
  destruct (rest st1) as [|d tl] eqn:E2; [discriminate|].
  destruct (is_digit_or_comma d) eqn:Hd; [|discriminate].
  apply star_class_reaches in H as (run & st2 & E3 & Hrun & C2 & H).
  cbn [advance rest caps] in E3, C2.
  rewrite (consumed_prefix st1 st2 (d :: run)) in H by (by rewrite E2, E3).
  injection H as <-. exists seps, (d :: run). cbn [set_cap rest caps].
  split; [by rewrite E1, E3|]. split; [exact Hseps|].
  split; [by constructor|]. split; [done|]. by rewrite C2, C1.
Qed.

(** A match of the price pattern at a position: an optional code of
    three upper-case letters, separators, the digit group. *)
Lemma price_re_shape (st res : mstate) :
  caps st = [] ->
  rmatch price_re st Some = Some res ->
  exists code seps ds,
    rest st = code ++ seps ++ ds ++ rest res
    /\ Forall (fun c => is_price_sep c = true) seps
    /\ Forall (fun c => is_digit_or_comma c = true) ds
    /\ ds <> []
    /\ ((code = [] /\ lookup_cap 1 (caps res) = None)
        \/ (length code = 3%nat /\ Forall (fun c => is_upper c = true) code
            /\ lookup_cap 1 (caps res) = Some code)).
Proof.
  intros Hcaps. unfold price_re, Opt. rewrite rmatch_seq, rmatch_alt.
  destruct (rmatch (Group 1 _) st _) as [res'|] eqn:E.
  - intros [= ->].
    rewrite rmatch_group in E. cbn [Rep] in E.
    rewrite rmatch_seq, rmatch_class in E.
    destruct (rest st) as [|a tl] eqn:E0; [discriminate|].
    destruct (is_upper a) eqn:Ha; [|discriminate].
    rewrite rmatch_seq, rmatch_class in E. cbn [advance rest] in E.
    destruct tl as [|b tl]; [discriminate|].
    destruct (is_upper b) eqn:Hb; [|discriminate].
    rewrite rmatch_seq, rmatch_class in E. cbn [advance rest] in E.
    destruct tl as [|c tl]; [discriminate|].
    destruct (is_upper c) eqn:Hc; [|discriminate].
    rewrite rmatch_empty in E.
    rewrite (consumed_prefix _ _ [a; b; c]) in E by (by rewrite E0).
    apply price_tail_shape in E as (seps & ds & Er & Hseps & Hds & Hne & Hc2).
    cbn [set_cap rest caps advance] in Er, Hc2.
    exists [a; b; c], seps, ds. split; [by rewrite Er|].
    split; [exact Hseps|]. split; [exact Hds|]. split; [exact Hne|]. right.
    split; [reflexivity|]. split; [by repeat constructor|].
    by rewrite Hc2, Hcaps.
  - rewrite rmatch_empty. intros H.
    apply price_tail_shape in H as (seps & ds & Er & Hseps & Hds & Hne & Hc2).
    exists [], seps, ds. split; [exact Er|].
    split; [exact Hseps|]. split; [exact Hds|]. split; [exact Hne|]. left.
    split; [reflexivity|]. by rewrite Hc2, Hcaps.
Qed.

(** X5: the currency of a normalized listing is read off the price text.
    At the leftmost place of the text where the price pattern matches
    stand, in this order, an optional code of three upper-case letters,
    separators (white space and currency signs) and the group of digits
    and commas; the currency is that code, and PHP when the match has no
    code. *)
Theorem currency_is_code (rawData : RawData) (l : Listing) (price_raw : jsstring) :
  normalizeListingData rawData = Some l ->
  raw_price_raw rawData = Some price_raw ->
  exists m pre code seps ds post,
    str_match price_re price_raw = Some m
    /\ price_raw = pre ++ code ++ seps ++ ds ++ post
    /\ m_index m = length pre
    /\ m_whole m = code ++ seps ++ ds
    /\ Forall (fun c => is_price_sep c = true) seps
    /\ Forall (fun c => is_digit_or_comma c = true) ds
    /\ ds <> []
    /\ ((code = [] /\ currency l = js "PHP")
        \/ (length code = 3%nat /\ Forall (fun c => is_upper c = true) code
            /\ currency l = code)).
Proof.
  unfold normalizeListingData. intros H Hp. rewrite Hp in H.
  destruct (str_match price_re price_raw) as [pm|] eqn:Ep; [|discriminate].
  destruct (raw_title rawData) as [t|]; [|discriminate].
  injection H as <-. cbn [currency].
  apply search_split in Ep as (pre & st & st' & Hs & C & Hi & Hm & Hcaps & Hw).
  destruct (price_re_shape st st' C Hm)
    as (code & seps & ds & Er & Hseps & Hds & Hne & Hcode).
  exists pm, pre, code, seps, ds, (rest st').
  split; [reflexivity|]. split; [by rewrite Hs, Er|]. split; [exact Hi|].
  split.
  { rewrite Hw. apply consumed_prefix. by rewrite Er, !app_assoc. }
  split; [exact Hseps|]. split; [exact Hds|]. split; [exact Hne|].
  unfold group. rewrite Hcaps.
  destruct Hcode as [[-> ->] | (Hlen & Hup & ->)].
  - by left.
  - right. split; [exact Hlen|]. split; [exact Hup|].
    by destruct code as [|a code].
Qed.

Lemma currency_is_code_witness :
  exists l m,
    normalizeListingData
      (raw_of (js "2018 Toyota Vios 1.3 E") (js "Price: USD 45,000 only") url1) = Some l
    /\ str_match price_re (js "Price: USD 45,000 only") = Some m
    /\ m_whole m = js "USD 45,000"
    /\ currency l = js "USD".
Proof.
  destruct (currency_is_code
              (raw_of (js "2018 Toyota Vios 1.3 E") (js "Price: USD 45,000 only") url1)
              _ (js "Price: USD 45,000 only") eq_refl eq_refl)
    as (m & pre & code & seps & ds & post & Hm & _).
  eexists. exists m. split; [vm_compute; reflexivity|]. split; [exact Hm|].
  vm_compute in Hm. injection Hm as <-. split; reflexivity.
Defined.

(** A literal under the [i] flag consumes as many code units, each in
    either case. *)
Lemma litI_reaches (l : jsstring) (st : mstate) (k : mstate -> option mstate)
    (res : mstate) :
  Forall (fun c => is_lower c = true) l ->
  rmatch (LitI l) st k = Some res ->
  exists w st', rest st = w ++ rest st' /\ Forall2 matches_ci l w /\ k st' = Some res.
Proof.
  intros Hl. revert st. induction Hl as [|c l Hc _ IH]; intros st; cbn [LitI].
  - rewrite rmatch_empty. intros H. by exists [], st.
  - unfold ChrI. rewrite rmatch_seq, rmatch_class.
    destruct (rest st) as [|x tl] eqn:E; [discriminate|]. rewrite Hc.
    destruct ((x =? c) || true && (x =? c - 32) || is_upper c && (x =? c + 32)) eqn:Ex;
      [|discriminate].
    intros H. apply IH in H as (w & st' & E' & Hw & H).
    exists (x :: w), st'. cbn [advance rest] in E'. split; [by rewrite E'|].
    split; [|done]. constructor; [|done].
    assert (Hup : is_upper c = false).
    { unfold is_lower, is_upper in *. apply not_true_iff_false. intros Hu.
      bool_to_prop. lia. }
    rewrite Hup in Ex. cbn [andb orb] in Ex. rewrite orb_false_r in Ex.
    apply orb_true_iff in Ex as [Ex|Ex]; apply N.eqb_eq in Ex; [by left|by right].
Qed.

Lemma mileage_re_at (st res : mstate) :
  rmatch mileage_re st Some = Some res ->
  exists pre u, rest st = (pre ++ u) ++ rest res /\ (unit_k u \/ unit_miles u).
Proof.
  unfold mileage_re. rewrite rmatch_seq, rmatch_group. intros H.
  apply rmatch_reaches in H as (st1 & [p1 E1] & H). rewrite rmatch_seq in H.
  apply rmatch_reaches in H as (st2 & [p2 E2] & H).
  cbn [set_cap rest] in E2.
  assert (Epre : rest st = (p1 ++ p2) ++ rest st2) by (by rewrite E1, E2, app_assoc).
  clear E1 E2. rewrite rmatch_group, rmatch_alt in H.
  change (LitI (js "k")) with (Seq (ChrI 107) Empty) in H.
  change (LitI (js "km")) with (Seq (ChrI 107) (Seq (ChrI 109) Empty)) in H.
  unfold ChrI in H at 1 2.
  rewrite (rmatch_seq (Class _) Empty), rmatch_class in H.
  rewrite rmatch_alt, (rmatch_seq (Class _) (Seq _ _)), rmatch_class in H.
  destruct (rest st2) as [|x tl] eqn:E.
  - apply litI_reaches in H as (w & st3 & E3 & Hw & H); [|by repeat constructor].
    rewrite E in E3. symmetry in E3. apply app_eq_nil in E3 as [-> _]. inversion Hw.
  - destruct ((x =? 107) || is_lower 107 && (x =? 107 - 32)
              || is_upper 107 && (x =? 107 + 32)) eqn:Ek.
    + rewrite rmatch_empty in H. injection H as <-. cbn [set_cap advance rest].
      exists (p1 ++ p2), [x]. split; [by rewrite Epre, <- !app_assoc|]. left.
      cbn in Ek. rewrite orb_false_r in Ek.
      apply orb_true_iff in Ek as [Ek|Ek]; apply N.eqb_eq in Ek; subst x;
        [by left|by right].
    + apply litI_reaches in H as (w & st3 & E3 & Hw & H); [|by repeat constructor].
      injection H as <-. cbn [set_cap rest].
      exists (p1 ++ p2), w. split; [by rewrite Epre, <- E, E3, <- !app_assoc|]. by right.
Qed.

(** X6: the mileage of a normalized listing ends with its unit, and the
    unit is [k] or [miles], in either case of letters: a unit [km] is
    never kept whole, it is cut after the [k]. *)
Theorem mileage_unit (rawData : RawData) (l : Listing) (s : jsstring) :
  normalizeListingData rawData = Some l ->
  mileage l = Some s ->
  exists pre u, s = pre ++ u /\ (unit_k u \/ unit_miles u).
Proof.
  unfold normalizeListingData.
  destruct (raw_price_raw rawData) as [price_raw|]; [|discriminate].
  destruct (str_match price_re price_raw) as [pm|]; [|discriminate].
  destruct (raw_title rawData) as [t|]; [|discriminate].
  intros [= <-]. cbn [mileage].
  destruct (str_match mileage_re t) as [mm|] eqn:Em; [|discriminate].
  intros [= <-].
  apply search_at in Em as (st & st' & _ & _ & H & _ & ->).
  apply mileage_re_at in H as (pre & u & E & Hu).
  exists pre, u. split; [|done]. by apply consumed_prefix.
Qed.

Lemma mileage_unit_witness :
  exists l, normalizeListingData
              (raw_of (js "2018 Toyota Vios 50,000 km") (peso :: js "350,000") url1) = Some l
            /\ mileage l = Some (js "50,000 k")
            /\ exists pre u, js "50,000 k" = pre ++ u /\ (unit_k u \/ unit_miles u).
Proof.
  eexists. split; [vm_compute; reflexivity|]. split; [reflexivity|].
  eapply (mileage_unit (raw_of (js "2018 Toyota Vios 50,000 km") (peso :: js "350,000") url1));
    vm_compute; reflexivity.
Defined.

(** ** The upsert statement *)

Lemma upsert_stmt_refused (now new_id : N) (l : Listing) (t : Table) (v : Violation) :
  upsert_stmt now new_id l t = inl v <-> listing_violation l = Some v.
Proof.
  unfold upsert_stmt, listing_violation.
  destruct (bind_year (year l)) as [v'|y]; [split; intros [= <-]; reflexivity|].
  destruct (listing_fits l) as [v'|]; [split; intros [= <-]; reflexivity|].
  destruct (source_url l) as [url|]; [|split; intros [= <-]; reflexivity].
  destruct (existsb (same_url url) t).
  - rewrite sql_update_total. split; discriminate.
  - split; discriminate.
Qed.

(** An accepted upsert, case by case: the row of the URL is rewritten in
    place, or a new row is appended. *)
Lemma upsert_stmt_accepted (now new_id : N) (l : Listing) (t : Table) :
  listing_violation l = None ->
  exists url y,
    source_url l = Some url
    /\ upsert_stmt now new_id l t =
       if existsb (same_url url) t then
         inr (map (fun r => if same_url url r
                            then update_updated_at_column now
                                   (conflict_update now (inserted_row now new_id l url y) r)
                            else r) t,
              default (inserted_row now new_id l url y)
                (head (map (fun r => update_updated_at_column now
                                       (conflict_update now (inserted_row now new_id l url y) r))
                           (filter (fun r => same_url url r = true) t))))
       else inr (t ++ [inserted_row now new_id l url y], inserted_row now new_id l url y).
Proof.
  unfold listing_violation, upsert_stmt.
  destruct (bind_year (year l)) as [v'|y]; [discriminate|].
  destruct (listing_fits l) as [v'|]; [discriminate|].
  destruct (source_url l) as [url|]; [|discriminate].
  intros _. exists url, y. split; [reflexivity|].
  destruct (existsb (same_url url) t); [|reflexivity].
  by rewrite sql_update_total.
Qed.

Lemma same_url_eq (url : jsstring) (r : Row) :
  same_url url r = true <-> row_source_url r = url.
Proof. unfold same_url, str_eqb. apply bool_decide_eq_true. Qed.

Lemma existsb_same_url (url : jsstring) (t : Table) :
  existsb (same_url url) t = true <-> url ∈ map row_source_url t.
Proof.
  rewrite existsb_elem, list_elem_of_fmap. split.
  - intros (r & Hr & Hu). apply same_url_eq in Hu. eauto.
  - intros (r & -> & Hr). exists r. split; [done|]. by apply same_url_eq.
Qed.

(** With unique URLs, the rows of a URL are one row. *)
Lemma filter_unique {A B : Type} `{EqDecision B} (f : A -> B) (p : A -> bool)
    (l : list A) (x : A) :
  NoDup (map f l) -> x ∈ l ->
  (forall y, p y = true <-> f y = f x) ->
  filter (fun y => p y = true) l = [x].
Proof.
  intros Hnd Hx Hp. induction l as [|y l IH]; [by apply not_elem_of_nil in Hx|].
  cbn [map] in Hnd. apply NoDup_cons in Hnd as [Hy Hnd].
  rewrite filter_cons. apply elem_of_cons in Hx as [<- | Hx].
  - rewrite decide_True by (by apply Hp). f_equal.
    apply filter_none. intros z Hz. apply not_true_iff_false. intros Hpz.
    apply Hp in Hpz. apply Hy. rewrite <- Hpz. by apply list_elem_of_fmap_2.
  - rewrite decide_False; [by apply IH|].
    intros Hpy. apply Hp in Hpy. apply Hy. rewrite Hpy. by apply list_elem_of_fmap_2.
Qed.

(** An accepted upsert keeps the keys of the table. *)
Lemma upsert_stmt_wf (now : N) (l : Listing) (d : Db) (t' : Table) (row : Row) :
  wf_db d ->
  upsert_stmt now (next_id d) l (table d) = inr (t', row) ->
  wf_db {| table := t'; next_id := next_id d + 1 |}.
Proof.
  intros [Hids Hurls Hseq] H.
  destruct (listing_violation l) as [v|] eqn:Ev.
  { apply upsert_stmt_refused with (now := now) (new_id := next_id d) (t := table d) in Ev.
    rewrite Ev in H. discriminate. }
  destruct (upsert_stmt_accepted now (next_id d) l (table d) Ev) as (url & y & Hu & E).
  rewrite E in H. destruct (existsb (same_url url) (table d)) eqn:Ex.
  - injection H as <- _. split; cbn [table next_id].
    + rewrite map_map. erewrite map_ext; [exact Hids|].
      intros r. by destruct (same_url url r).
    + rewrite map_map. erewrite map_ext; [exact Hurls|].
      intros r. by destruct (same_url url r).
    + intros r Hr. apply list_elem_of_fmap in Hr as (r0 & -> & Hr0).
      specialize (Hseq r0 Hr0). destruct (same_url url r0); cbn; lia.
  - injection H as <- _. split; cbn [table next_id].
    + rewrite map_app. apply NoDup_app. split; [done|]. split; [|apply NoDup_singleton].
      intros x Hx Hx'. apply list_elem_of_singleton in Hx'. cbn in Hx'. subst x.
      apply list_elem_of_fmap in Hx as (r & E' & Hr). specialize (Hseq r Hr). lia.
    + rewrite map_app. apply NoDup_app. split; [done|]. split; [|apply NoDup_singleton].
      intros x Hx Hx'. apply list_elem_of_singleton in Hx'. cbn in Hx'. subst x.
      apply existsb_same_url in Hx. by rewrite Hx in Ex.
    + intros r Hr. apply elem_of_app in Hr as [Hr|Hr].
      * specialize (Hseq r Hr). lia.
      * apply list_elem_of_singleton in Hr. subst r. cbn. lia.
Qed.

(** ** [upsert] and [bulkUpsert], step by step *)

Lemma upsert_run (l : Listing) (w : World) :
  CarListingModel.upsert l w =
  match upsert_stmt (clock w) (next_id (db w)) l (table (db w)) with
  | inl v =>
      (Thrown (DbError v),
       after_query (if draws_id v
                    then {| table := table (db w); next_id := next_id (db w) + 1 |}
                    else db w) w)
  | inr (t', row) =>
      (Ok row, after_query {| table := t'; next_id := next_id (db w) + 1 |} w)
  end.
Proof.
  unfold CarListingModel.upsert, db_query_upsert, try_catch, bind, emit, gets, tick,
    set_db, modify, throw, ret, after_query.
  step. destruct (upsert_stmt _ _ _ _) as [v|[t' row]]; [|reflexivity].
  by destruct (draws_id v).
Qed.

Lemma upsert_keeps_wf (l : Listing) (w : World) :
  wf_db (db w) -> wf_db (db (world_of (CarListingModel.upsert l w))).
Proof.
  intros Hwf. rewrite upsert_run.
  destruct (upsert_stmt _ _ _ _) as [v|[t' row]] eqn:E; cbn [world_of snd after_query db].
  - destruct (draws_id v); [|exact Hwf].
    destruct Hwf as [Hids Hurls Hseq]. split; cbn [table next_id]; [done|done|].
    intros r Hr. specialize (Hseq r Hr). lia.
  - by apply (upsert_stmt_wf (clock w) l (db w) t' row).
Qed.

(** The loop of [bulkUpsert]: statements on the pool only. *)
Lemma for_each_upsert_run (listings : list Listing) (w : World) :
  exists r w' n,
    for_each listings CarListingModel.upsert w = (r, w')
    /\ txn w' = txn w
    /\ (wf_db (db w) -> wf_db (db w'))
    /\ trace w' = trace w ++ replicate n DbQuery
    /\ (n <= length listings)%nat
    /\ (forall rows, r = Ok rows -> length rows = length listings /\ n = length listings).
Proof.
  revert w. induction listings as [|l ls IH]; intros w.
  - exists (Ok []), w, 0%nat. cbn. rewrite app_nil_r.
    split; [done|]. split; [done|]. split; [done|]. split; [done|]. split; [done|].
    by intros rows [= <-].
  - cbn [for_each]. unfold bind at 1.
    pose proof (upsert_keeps_wf l w) as Hwf. unfold world_of in Hwf.
    rewrite upsert_run in *.
    destruct (upsert_stmt _ _ _ _) as [v|[t' row]].
    + eexists _, _, 1%nat. split; [reflexivity|]. cbn.
      split; [done|]. split; [done|]. split; [done|]. split; [lia|]. discriminate.
    + destruct (IH (after_query {| table := t'; next_id := next_id (db w) + 1 |} w))
        as (r & w' & n & E & Ht & Hw & Htr & Hn & Hok).
      unfold bind. rewrite E. cbn in Ht, Htr, Hwf.
      destruct r as [rows|e].
      * eexists _, w', (S n). split; [reflexivity|].
        destruct (Hok rows eq_refl) as [Hl ->].
        split; [done|]. split; [by intros H; apply Hw, Hwf|].
        split; [by rewrite Htr, <- app_assoc|]. split; [cbn; lia|].
        intros rows' [= <-]. cbn. by rewrite Hl.
      * eexists _, w', (S n). split; [reflexivity|].
        split; [done|]. split; [by intros H; apply Hw, Hwf|].
        split; [by rewrite Htr, <- app_assoc|]. split; [cbn; lia|]. discriminate.
Qed.

(** X7: whatever the batch, and whether it succeeds or fails,
    [bulkUpsert] keeps the keys of the table: no second row for an [id]
    or for a [source_url] is ever created. *)
Theorem bulkUpsert_keeps_keys (listings : list Listing) (w : World) :
  wf_db (db w) ->
  wf_db (db (world_of (CarListingModel.bulkUpsert listings w))).
Proof.
  intros Hwf.
  unfold CarListingModel.bulkUpsert, getClient, release, client_query, try_finally,
    try_catch, bind, emit, gets, tick, set_txn, set_db, modify, throw, ret, world_of.
  step.
  match goal with
  | |- context [for_each listings CarListingModel.upsert ?W] =>
      destruct (for_each_upsert_run listings W) as (r & w' & n & -> & Ht & Hw & _)
  end.
  cbn in Ht. specialize (Hw Hwf).
  destruct r as [rows|e]; step; [|exact Hw].
  rewrite Ht; step. cbn [apply_writes foldl]. by destruct (db w').
Qed.

Lemma bulkUpsert_keeps_keys_witness :
  wf_db (db empty_world)
  /\ wf_db (db (world_of (CarListingModel.bulkUpsert overflowing_batch empty_world))).
Proof.
  assert (H : wf_db (db empty_world)).
  { split; cbn; [constructor | constructor |].
    intros r Hr. by apply not_elem_of_nil in Hr. }
  exact (conj H (bulkUpsert_keeps_keys overflowing_batch empty_world H)).
Defined.

(** The loop of [bulkUpsert], statement by statement. *)
Lemma for_each_upsert_sent (listings : list Listing) (w : World) :
  exists r w',
    for_each listings CarListingModel.upsert w = (r, w')
    /\ txn w' = txn w
    /\ trace w' = trace w ++ replicate (upserts_sent listings w) DbQuery
    /\ match r with
       | Ok rows => upserts_sent listings w = length listings
                    /\ length rows = length listings
       | Thrown _ => (1 <= upserts_sent listings w <= length listings)%nat
       end.
Proof.
  revert w. induction listings as [|l ls IH]; intros w.
  - exists (Ok []), w. cbn. rewrite app_nil_r. by repeat split.
  - cbn [for_each upserts_sent]. unfold bind at 1.
    pose proof (upsert_run l w) as Hu.
    destruct (CarListingModel.upsert l w) as [[row|e] w1].
    + assert (Hw1 : txn w1 = txn w /\ trace w1 = trace w ++ [DbQuery]).
      { destruct (upsert_stmt _ _ _ _) as [v|[t' row']]; [discriminate|].
        injection Hu as _ ->. by split. }
      destruct Hw1 as [Ht1 Htr1].
      destruct (IH w1) as (r & w' & E' & Ht & Htr & Hr).
      unfold bind. rewrite E'.
      destruct r as [rows|e]; eexists _, w'; (split; [reflexivity|]);
        (split; [congruence|]);
        (split; [rewrite Htr, Htr1, <- app_assoc; reflexivity|]); cbn [length].
      * destruct Hr as [-> ->]. by split.
      * lia.
    + assert (Hw1 : txn w1 = txn w /\ trace w1 = trace w ++ [DbQuery]).
      { destruct (upsert_stmt _ _ _ _) as [v|[t' row']]; [|discriminate].
        injection Hu as _ ->. by split. }
      destruct Hw1 as [Ht1 Htr1].
      eexists _, w1. split; [reflexivity|]. split; [exact Ht1|].
      split; [exact Htr1|]. cbn [length]. lia.
Qed.

(** X8: [bulkUpsert] always gives its client back.  The calls it makes
    are: [getClient], BEGIN, one statement on the pool for each listing
    up to and including the first whose upsert throws, then COMMIT when
    none has thrown and ROLLBACK otherwise, and [release] last.  When it
    returns, every listing had its statement and its row. *)
Theorem bulkUpsert_releases (listings : list Listing) (w : World) :
  let sent :=
    upserts_sent listings (world_of ((getClient ;;; client_query BEGIN) w)) in
  trace (world_of (CarListingModel.bulkUpsert listings w)) =
    trace w ++ [GetClient; ClientQuery BEGIN]
      ++ replicate sent DbQuery
      ++ [ClientQuery (match result_of (CarListingModel.bulkUpsert listings w) with
                       | Ok _ => COMMIT
                       | Thrown _ => ROLLBACK
                       end); Release]
  /\ match result_of (CarListingModel.bulkUpsert listings w) with
     | Ok rows => sent = length listings /\ length rows = length listings
     | Thrown _ => (1 <= sent <= length listings)%nat
     end
  /\ txn (world_of (CarListingModel.bulkUpsert listings w)) = NoTxn.
Proof.
  unfold CarListingModel.bulkUpsert, getClient, release, client_query, try_finally,
    try_catch, bind, emit, gets, tick, set_txn, set_db, modify, throw, ret, world_of,
    result_of.
  step.
  match goal with
  | |- context [for_each listings CarListingModel.upsert ?W] =>
      destruct (for_each_upsert_sent listings W) as (r & w' & -> & Ht & Htr & Hr)
  end.
  cbn in Ht, Htr.
  destruct r as [rows|e]; step; [rewrite Ht; step|]; rewrite Htr;
    (split; [by rewrite <- !app_assoc|]); by split.
Qed.

(** ** Upsert, lookup, delete: how they compose *)

Lemma filter_unique_on {A B : Type} (f : A -> B) (p : A -> bool) (l : list A) (x : A) :
  NoDup (map f l) -> x ∈ l -> p x = true ->
  (forall y, y ∈ l -> p y = true -> f y = f x) ->
  filter (fun y => p y = true) l = [x].
Proof.
  intros Hnd Hx Hpx Hp. induction l as [|y l IH]; [by apply not_elem_of_nil in Hx|].
  cbn [map] in Hnd. apply NoDup_cons in Hnd as [Hy Hnd].
  rewrite filter_cons. apply elem_of_cons in Hx as [<- | Hx].
  - rewrite decide_True by done. f_equal.
    apply filter_none. intros z Hz. apply not_true_iff_false. intros Hpz.
    apply Hy. rewrite <- (Hp z) by (done || by right). by apply list_elem_of_fmap_2.
  - rewrite decide_False.
    + apply IH; [done|done|]. intros z Hz. apply Hp. by right.
    + intros Hpy. apply Hy. rewrite (Hp y) by (done || by left). by apply list_elem_of_fmap_2.
Qed.

Lemma findById_unique (id : N) (d : Db) (row : Row) (w : World) :
  db w = d -> wf_db d -> row ∈ table d -> row_id row = id -> row_is_active row = true ->
  result_of (CarListingModel.findById id w)
  = match bind_integer id with
    | None => Ok (Some row)
    | Some v => Thrown (DbError v)
    end.
Proof.
  intros <- [Hids _ _] Hrow <- Hact. rewrite findById_run.
  destruct (bind_integer (row_id row)); [reflexivity|].
  rewrite (filter_unique_on row_id _ _ row Hids Hrow); [reflexivity| |].
  - unfold active_with_id, has_id. by rewrite N.eqb_refl, Hact.
  - intros y _ Hy. unfold active_with_id, has_id in Hy.
    apply andb_true_iff in Hy as [Hy _]. by apply N.eqb_eq in Hy.
Qed.

(** The row an accepted upsert returns. *)
Lemma upsert_stmt_row (now : N) (l : Listing) (d : Db) (t' : Table) (row : Row) :
  wf_db d ->
  upsert_stmt now (next_id d) l (table d) = inr (t', row) ->
  row ∈ t'
  /\ row_is_active row = true
  /\ source_url l = Some (row_source_url row)
  /\ row_title row = title l /\ row_price row = price l
  /\ row_last_scraped_at row = now /\ row_updated_at row = now
  /\ length t' = (if existsb (same_url (row_source_url row)) (table d)
                  then length (table d) else S (length (table d)))
  /\ (forall r, r ∈ table d -> row_source_url r = row_source_url row ->
        row_id row = row_id r /\ row_created_at row = row_created_at r)
  /\ (existsb (same_url (row_source_url row)) (table d) = false ->
        row_id row = next_id d /\ row_created_at row = now).
Proof.
  intros [Hids Hurls Hseq] H.
  destruct (listing_violation l) as [v|] eqn:Ev.
  { apply upsert_stmt_refused with (now := now) (new_id := next_id d) (t := table d) in Ev.
    rewrite Ev in H. discriminate. }
  destruct (upsert_stmt_accepted now (next_id d) l (table d) Ev) as (url & y & Hu & E).
  rewrite E in H. destruct (existsb (same_url url) (table d)) eqn:Ex.
  - injection H as <- <-.
    pose proof Ex as Hex. apply existsb_elem in Hex as (r0 & Hr0 & Hu0).
    assert (Hf : filter (fun r => same_url url r = true) (table d) = [r0]).
    { apply (filter_unique_on row_source_url _ _ r0 Hurls Hr0 Hu0).
      intros z _ Hz. apply same_url_eq in Hz, Hu0. congruence. }
    rewrite Hf. cbn [map head default from_option id].
    apply same_url_eq in Hu0.
    cbn [update_updated_at_column conflict_update row_source_url row_is_active row_title
           row_price row_last_scraped_at row_updated_at row_id row_created_at inserted_row].
    rewrite Hu0, Ex. split.
    { apply list_elem_of_fmap. exists r0. split; [|done].
      rewrite (proj2 (same_url_eq url r0) Hu0). reflexivity. }
    split; [done|]. split; [done|]. split; [done|]. split; [done|]. split; [done|].
    split; [done|]. split; [by rewrite length_map|]. split; [|discriminate].
    intros r Hr Hur. enough (r = r0) by (by subst r).
    assert (Hin : r ∈ filter (fun r => same_url url r = true) (table d)).
    { apply list_elem_of_filter. split; [|done]. by apply same_url_eq. }
    rewrite Hf in Hin. by apply list_elem_of_singleton in Hin.
  - injection H as <- <-. cbn [inserted_row row_source_url row_is_active row_title
           row_price row_last_scraped_at row_updated_at row_id row_created_at].
    rewrite Ex. split; [apply elem_of_app; right; by left|].
    split; [done|]. split; [done|]. split; [done|]. split; [done|]. split; [done|].
    split; [done|]. split; [rewrite length_app; cbn; lia|]. split; [|done].
    intros r Hr Hur. exfalso. apply not_true_iff_false in Ex. apply Ex.
    apply existsb_elem. exists r. split; [done|]. by apply same_url_eq.
Qed.

(** X9: what [upsert] returns can be read back.  On a table whose keys
    hold, the row an accepted [upsert] returns is active and [findById]
    of its id gives that very row.  (The id of a row is an INTEGER; were
    it not, the database would refuse it as a parameter.) *)
Theorem upsert_then_findById (l : Listing) (w : World) (row : Row) :
  wf_db (db w) ->
  result_of (CarListingModel.upsert l w) = Ok row ->
  result_of (CarListingModel.findById (row_id row)
               (world_of (CarListingModel.upsert l w)))
  = match bind_integer (row_id row) with
    | None => Ok (Some row)
    | Some v => Thrown (DbError v)
    end.
Proof.
  intros Hwf. pose proof (upsert_keeps_wf l w Hwf) as Hwf'. revert Hwf'.
  rewrite upsert_run. unfold result_of, world_of.
  destruct (upsert_stmt _ _ _ _) as [v|[t' row']] eqn:E; [discriminate|].
  cbn [fst snd]. intros Hwf' [= ->].
  destruct (upsert_stmt_row _ _ _ _ _ Hwf E) as (Hin & Hact & _).
  by eapply (findById_unique _ _ row); [reflexivity|exact Hwf'| | |].
Qed.

Lemma wf_empty_world : wf_db (db empty_world).
Proof.
  split; cbn; [constructor | constructor |]. intros r Hr. by apply not_elem_of_nil in Hr.
Qed.

Lemma upsert_then_findById_witness :
  wf_db (db empty_world)
  /\ exists row,
       result_of (CarListingModel.upsert vios_listing empty_world) = Ok row
       /\ result_of (CarListingModel.findById (row_id row)
                       (world_of (CarListingModel.upsert vios_listing empty_world)))
          = Ok (Some row).
Proof.
  split; [exact wf_empty_world|]. eexists. split; [vm_compute; reflexivity|].
  apply (upsert_then_findById vios_listing empty_world); [exact wf_empty_world|].
  vm_compute. reflexivity.
Defined.

(** X10: scraping a URL again updates its row in place.  After two
    accepted upserts of listings with the same [source_url], the second
    row has the [id] and [created_at] of the first, the values of the
    second listing, a strictly later [last_scraped_at], and it is the only
    row of that URL; the table has not grown. *)
Theorem rescrape_updates_in_place (l1 l2 : Listing) (w : World) (r1 r2 : Row) :
  wf_db (db w) ->
  source_url l1 = source_url l2 ->
  result_of (CarListingModel.upsert l1 w) = Ok r1 ->
  result_of (CarListingModel.upsert l2 (world_of (CarListingModel.upsert l1 w))) = Ok r2 ->
  row_id r2 = row_id r1
  /\ row_created_at r2 = row_created_at r1
  /\ row_last_scraped_at r1 < row_last_scraped_at r2
  /\ row_title r2 = title l2 /\ row_price r2 = price l2
  /\ length (stored (CarListingModel.upsert l2 (world_of (CarListingModel.upsert l1 w))))
     = length (stored (CarListingModel.upsert l1 w))
  /\ filter (fun r => same_url (row_source_url r2) r = true)
            (stored (CarListingModel.upsert l2 (world_of (CarListingModel.upsert l1 w))))
     = [r2].
Proof.
  intros Hwf Hurl.
  pose proof (upsert_keeps_wf l1 w Hwf) as Hwf1. revert Hwf1.
  rewrite (upsert_run l1 w). unfold result_of, world_of, stored.
  destruct (upsert_stmt _ _ l1 _) as [v|[t1 row1]] eqn:E1; [discriminate|].
  cbn [fst snd]. intros Hwf1 [= ->].
  pose proof (upsert_keeps_wf l2 _ Hwf1) as Hwf2. revert Hwf2.
  rewrite upsert_run. unfold world_of. cbn [after_query db clock table next_id].
  destruct (upsert_stmt _ _ l2 _) as [v|[t2 row2]] eqn:E2; [discriminate|].
  cbn [fst snd db table]. intros Hwf2 [= ->].
  destruct (upsert_stmt_row _ _ _ _ _ Hwf E1)
    as (Hin1 & _ & Hu1 & _ & _ & Hs1 & _).
  destruct (upsert_stmt_row _ _ {| table := t1; next_id := next_id (db w) + 1 |} _ _ Hwf1 E2)
    as (Hin2 & _ & Hu2 & Ht2 & Hp2 & Hs2 & _ & Hlen & Hsame & _).
  cbn [table] in Hlen, Hsame.
  assert (Heq : row_source_url r1 = row_source_url r2) by congruence.
  destruct (Hsame r1 Hin1 Heq) as [Hid Hcr].
  assert (Hex : existsb (same_url (row_source_url r2)) t1 = true).
  { apply existsb_elem. exists r1. split; [done|]. by apply same_url_eq. }
  rewrite Hex in Hlen.
  split; [done|]. split; [done|]. split; [lia|]. split; [done|]. split; [done|].
  split; [done|].
  destruct Hwf2 as [_ Hurls2 _]. cbn [table] in Hurls2.
  apply (filter_unique_on row_source_url _ _ r2 Hurls2 Hin2); [by apply same_url_eq|].
  intros z _ Hz. by apply same_url_eq in Hz.
Qed.

Lemma rescrape_updates_in_place_witness :
  exists r1 r2,
    result_of (CarListingModel.upsert vios_listing empty_world) = Ok r1
    /\ row_id r2 = row_id r1
    /\ row_last_scraped_at r1 < row_last_scraped_at r2
    /\ length (stored (CarListingModel.upsert vios_listing
                         (world_of (CarListingModel.upsert vios_listing empty_world))))
       = 1%nat.
Proof.
  eexists _, _. split; [vm_compute; reflexivity|].
  destruct (rescrape_updates_in_place vios_listing vios_listing empty_world _ _
              wf_empty_world eq_refl eq_refl eq_refl) as (A & _ & C & _ & _ & D & _).
  split; [exact A|]. split; [exact C|]. exact D.
Defined.





(** X12: after [delete(id)], [findById(id)] returns [null], whatever the
    table held, for every id that fits the INTEGER parameter.  An id that
    does not fit is refused by the database in both calls: each of them
    throws. *)
Theorem delete_then_findById (id : N) (w : World) :
  match bind_integer id with
  | None =>
      id <= int4_max
      /\ result_of (CarListingModel.findById id (world_of (CarListingModel.delete id w)))
         = Ok None
  | Some v =>
      int4_max < id
      /\ result_of (CarListingModel.delete id w) = Thrown (DbError v)
      /\ result_of (CarListingModel.findById id (world_of (CarListingModel.delete id w)))
         = Thrown (DbError v)
  end.
Proof.
  destruct (bind_integer id) as [v|] eqn:Hb.
  - split; [by eapply bind_integer_Some|].
    split; [by rewrite (delete_refused id v w Hb)|]. by rewrite findById_run, Hb.
  - split; [by apply bind_integer_None|]. rewrite findById_run, Hb.
    pose proof (delete_is_soft_table id w Hb) as Ht. unfold stored in Ht. rewrite Ht.
    rewrite filter_none; [reflexivity|].
    intros r Hr. apply list_elem_of_fmap in Hr as (r0 & -> & _).
    unfold active_with_id. destruct (has_id id r0) eqn:E.
    + cbn. by rewrite andb_false_r.
    + by rewrite E.
Qed.

(** ** [update]: what it leaves alone *)

Lemma assign_protected (u : Update) (r r' : Row) :
  assign u r = inr r' -> protected_columns r' = protected_columns r.
Proof.
  destruct u as [[v|]|[v|]|v|v|v|v|v|v|key]; cbn; try discriminate;
    by intros [= <-].
Qed.

Lemma assign_all_protected (fields : list Update) (r r' : Row) :
  assign_all fields r = inr r' -> protected_columns r' = protected_columns r.
Proof.
  revert r. induction fields as [|u fields IH]; intros r; cbn [assign_all].
  - destruct (row_violation r); [discriminate|]. by intros [= <-].
  - destruct (assign u r) as [v|r1] eqn:E; [discriminate|].
    intros H. apply IH in H. apply assign_protected in E. congruence.
Qed.

Lemma sql_update_frame (now : N) (where_ : Row -> bool) (set : Row -> Violation + Row)
    (t t' : Table) (rows : list Row) :
  (forall r r', set r = inr r' -> protected_columns r' = protected_columns r) ->
  sql_update now where_ set t = inr (t', rows) ->
  Forall2 (fun r r' => protected_columns r' = protected_columns r
                       /\ (where_ r = false -> r' = r)) t t'.
Proof.
  intros Hset. revert t' rows. induction t as [|r t IH]; intros t' rows; cbn [sql_update].
  - intros [= <- <-]. constructor.
  - destruct (where_ r) eqn:Ew.
    + destruct (set r) as [v|r1] eqn:Es; [discriminate|].
      destruct (sql_update now where_ set t) as [v|[t'' rows']]; [discriminate|].
      intros [= <- <-]. constructor; [|by eapply IH].
      split; [|congruence]. by rewrite <- (Hset r r1 Es).
    + destruct (sql_update now where_ set t) as [v|[t'' rows']]; [discriminate|].
      intros [= <- <-]. constructor; [|by eapply IH]. by split.
Qed.

(** X13: [update] writes the allowed columns only.  Whatever the keys of
    [updates] (keys outside [allowedFields], such as [id], [source_url]
    or [is_active], are ignored), the table keeps its rows in number and
    order, every row keeps its [id], [source_url], [listing_id],
    [created_at], [last_scraped_at] and [is_active], and a row that is not
    the active row of the given id is not changed at all. *)
Theorem update_frame (id : N) (updates : list Update) (w : World) :
  Forall2 (fun r r' => protected_columns r' = protected_columns r
                       /\ (active_with_id id r = false -> r' = r))
          (table (db w)) (stored (CarListingModel.update id updates w)).
Proof.
  assert (Hrefl : Forall2 (fun r r' => protected_columns r' = protected_columns r
                             /\ (active_with_id id r = false -> r' = r))
                          (table (db w)) (table (db w))).
  { apply Forall2_same_length_lookup_2; [done|]. intros i r r' H H'.
    assert (r = r') by congruence. by subst r'. }
  unfold stored, world_of. rewrite update_run. cbv zeta.
  destruct (length _ =? 0)%nat; [exact Hrefl|].
  destruct (update_refused _ _); [exact Hrefl|].
  destruct (sql_update _ _ _ _) as [v|[t' rows]] eqn:E; [exact Hrefl|].
  cbn [snd after_query db table].
  eapply sql_update_frame; [|exact E]. apply assign_all_protected.
Qed.

(** ** A batch that is accepted *)






(** ** The scrape and the database *)

(** [scrape] makes no call to the database. *)
Lemma scrape_no_db (env : Env) (w : World) :
  db (world_of (FacebookScraper.scrape env w)) = db w
  /\ txn (world_of (FacebookScraper.scrape env w)) = txn w
  /\ clock (world_of (FacebookScraper.scrape env w)) = clock w
  /\ exists evs, trace (world_of (FacebookScraper.scrape env w)) = trace w ++ evs
                 /\ Forall (fun e => is_db_event e = false) evs.
Proof.
  run_pipeline.
  assert (Hfin : forall evs : list Event,
             Forall (fun e => is_db_event e = false) evs ->
             exists evs', trace w ++ evs = trace w ++ evs'
                          /\ Forall (fun e => is_db_event e = false) evs') by eauto.
  follow (on_launch env).
  { destruct (this_browser w); [follow (on_close env)|]; step;
      (split; [done|]); (split; [done|]); (split; [done|]);
      rewrite <- ?app_assoc; apply Hfin; by repeat constructor. }
  follow (on_newPage env);
    [follow (on_close env); (split; [done|]); (split; [done|]); (split; [done|]);
     rewrite <- ?app_assoc; apply Hfin; by repeat constructor|].
  follow (on_setViewport env);
    [follow (on_close env); (split; [done|]); (split; [done|]); (split; [done|]);
     rewrite <- ?app_assoc; apply Hfin; by repeat constructor|].
  follow (on_setExtraHTTPHeaders env);
    [follow (on_close env); (split; [done|]); (split; [done|]); (split; [done|]);
     rewrite <- ?app_assoc; apply Hfin; by repeat constructor|].
  follow (on_goto env (gotos w));
    [follow (on_close env); (split; [done|]); (split; [done|]); (split; [done|]);
     rewrite <- ?app_assoc; apply Hfin; by repeat constructor|].
  follow (on_waitForSelector env);
    (follow (on_scroll env);
     [follow (on_close env); (split; [done|]); (split; [done|]); (split; [done|]);
      rewrite <- ?app_assoc; apply Hfin; by repeat constructor|]);
    (follow (on_extract env); follow (on_close env);
     (split; [done|]); (split; [done|]); (split; [done|]);
     rewrite <- ?app_assoc; apply Hfin; by repeat constructor).
Qed.

Lemma scrapeAndStore_run (env : Env) (w : World) :
  scrapeAndStore env w =
  match FacebookScraper.scrape env (world_of (FacebookScraper.new w)) with
  | (Thrown e, w1) => (Thrown e, w1)
  | (Ok ls, w1) =>
      if (length ls =? 0)%nat then
        (Ok {| success := true; count := 0; listings := None |}, w1)
      else
        match CarListingModel.bulkUpsert ls w1 with
        | (Ok rows, w2) =>
            (Ok {| success := true; count := length rows; listings := Some rows |}, w2)
        | (Thrown e, w2) => (Thrown e, w2)
        end
  end.
Proof.
  unfold scrapeAndStore, try_catch, bind, throw, ret.
  change (FacebookScraper.new w) with (Ok tt, world_of (FacebookScraper.new w)).
  cbv beta iota.
  destruct (FacebookScraper.scrape env _) as [[ls|e] w1]; [|reflexivity].
  destruct (length ls =? 0)%nat; [reflexivity|].
  by destruct (CarListingModel.bulkUpsert ls w1) as [[?|?] ?].
Qed.

(** X15: a run whose scrape fails persists nothing.  Whatever the
    browser does, when [scrape] throws, [scrapeAndStore] throws the same
    error, makes no call to the database and leaves it as it was. *)
Theorem failed_scrape_persists_nothing (env : Env) (w : World) (e : Error) :
  result_of (FacebookScraper.scrape env (world_of (FacebookScraper.new w))) = Thrown e ->
  result_of (scrapeAndStore env w) = Thrown e
  /\ db (world_of (scrapeAndStore env w)) = db w
  /\ exists evs, trace (world_of (scrapeAndStore env w)) = trace w ++ evs
                 /\ Forall (fun ev => is_db_event ev = false) evs.
Proof.
  destruct (scrape_no_db env (world_of (FacebookScraper.new w))) as (Hdb & _ & _ & Htr).
  rewrite scrapeAndStore_run. unfold result_of, world_of in *.
  destruct (FacebookScraper.scrape env _) as [r w1]. cbn [fst snd] in *.
  intros ->. cbn [fst snd]. split; [done|]. split; [exact Hdb|exact Htr].
Qed.

Lemma failed_scrape_persists_nothing_witness :
  result_of (scrapeAndStore (quiet_env slow_once []) empty_world) = Thrown TimeoutError
  /\ db (world_of (scrapeAndStore (quiet_env slow_once []) empty_world)) = db empty_world.
Proof.
  destruct (failed_scrape_persists_nothing (quiet_env slow_once []) empty_world
              TimeoutError eq_refl) as (A & B & _).
  exact (conj A B).
Defined.

(** ** A run that stores what it scraped *)





(** ** The service: reads, deletes and updates by id *)

Lemma service_rethrows {A} (m : M A) (w : World) :
  try_catch m (fun error => throw error) w = m w.
Proof. unfold try_catch, throw. by destruct (m w) as [[a|e] w']. Qed.

(** X17: what [getListingById] answers.  For an id that fits the INTEGER
    parameter it returns a row only if that row is in the table, has the
    given id and is active, and it throws the 404 only if the table has
    no active row of that id; an id that does not fit is refused by the
    database and the error of the database is rethrown.  Nothing else can
    happen, and in every case the table is not changed. *)
Theorem getListingById_outcome (id : N) (w : World) :
  ((id <= int4_max
    /\ exists row, result_of (CarListingService.getListingById id w) = Ok row
                   /\ row ∈ table (db w) /\ row_id row = id /\ row_is_active row = true)
   \/ (id <= int4_max
       /\ result_of (CarListingService.getListingById id w)
          = Thrown (HttpError 404 "Listing not found")
       /\ forall r, r ∈ table (db w) -> row_id r = id -> row_is_active r = false)
   \/ (int4_max < id
       /\ exists v, bind_integer id = Some v
                    /\ result_of (CarListingService.getListingById id w)
                       = Thrown (DbError v)))
  /\ stored (CarListingService.getListingById id w) = table (db w).
Proof.
  pose proof (findById_run id w) as Hf. pose proof (findById_reads id w) as Hs.
  unfold CarListingService.getListingById. rewrite service_rethrows.
  unfold bind, result_of, stored, world_of in *.
  destruct (CarListingModel.findById id w) as [r w']. cbn [fst snd] in Hf, Hs. subst r.
  destruct (bind_integer id) as [v|] eqn:Hb.
  { split; [|exact Hs]. right. right. split; [by eapply bind_integer_Some|]. by exists v. }
  apply bind_integer_None in Hb.
  destruct (filter _ _) as [|row rest] eqn:E; cbn [head fst snd]; (split; [|exact Hs]).
  - right. left. split; [exact Hb|]. split; [reflexivity|]. intros r Hr Hid.
    destruct (row_is_active r) eqn:Ha; [|reflexivity].
    assert (Hin : r ∈ filter (fun r => active_with_id id r = true) (table (db w))).
    { apply list_elem_of_filter. split; [|done].
      unfold active_with_id, has_id. rewrite Ha, andb_true_r. by apply N.eqb_eq. }
    rewrite E in Hin. by apply not_elem_of_nil in Hin.
  - left. split; [exact Hb|]. exists row. split; [reflexivity|].
    assert (Hin : row ∈ filter (fun r => active_with_id id r = true) (table (db w)))
      by (rewrite E; left).
    apply list_elem_of_filter in Hin as [Hp Hin]. unfold active_with_id, has_id in Hp.
    apply andb_true_iff in Hp as [Hid Ha]. by apply N.eqb_eq in Hid.
Qed.

(** X18: what [deleteListing] answers.  For an id that fits the INTEGER
    parameter it returns [true] exactly when the table has a row of the
    given id, active or not, and otherwise throws the 404; an id that does
    not fit is refused by the database and the error of the database is
    rethrown.  Unless it returns [true], the table is as it was. *)
Theorem deleteListing_outcome (id : N) (w : World) :
  (id <= int4_max
   /\ result_of (CarListingService.deleteListing id w) = Ok true
   /\ exists r, r ∈ table (db w) /\ row_id r = id)
  \/ (id <= int4_max
      /\ result_of (CarListingService.deleteListing id w)
         = Thrown (HttpError 404 "Listing not found")
      /\ (forall r, r ∈ table (db w) -> row_id r <> id)
      /\ stored (CarListingService.deleteListing id w) = table (db w))
  \/ (int4_max < id
      /\ (exists v, bind_integer id = Some v
                    /\ result_of (CarListingService.deleteListing id w)
                       = Thrown (DbError v))
      /\ stored (CarListingService.deleteListing id w) = table (db w)).
Proof.
  unfold CarListingService.deleteListing. rewrite service_rethrows.
  unfold bind, result_of, stored, world_of. rewrite delete_run.
  destruct (bind_integer id) as [v|] eqn:Hb.
  { right. right. split; [by eapply bind_integer_Some|]. split; [by exists v|done]. }
  apply bind_integer_None in Hb.
  destruct (existsb (has_id id) (table (db w))) eqn:E; cbn [fst snd].
  - left. split; [exact Hb|]. split; [reflexivity|].
    apply existsb_elem in E as (r & Hr & Hid).
    exists r. split; [done|]. by apply N.eqb_eq in Hid.
  - right. left. split; [exact Hb|]. split; [reflexivity|].
    assert (Hno : forall r, r ∈ table (db w) -> has_id id r = false).
    { intros r Hr. destruct (has_id id r) eqn:Hid; [|reflexivity].
      assert (existsb (has_id id) (table (db w)) = true)
        by (apply existsb_elem; by exists r).
      congruence. }
    split.
    + intros r Hr Hid. specialize (Hno r Hr). unfold has_id in Hno.
      by apply N.eqb_neq in Hno.
    + unfold throw. cbn [fst snd after_query db table].
      rewrite <- (map_id (table (db w))) at 2. apply map_ext_in.
      intros r Hr. apply list_elem_of_In in Hr. by rewrite (Hno r Hr).
Qed.

(** X19: an update that fails validation reaches no query.  When
    [validateUpdateData] throws, [updateListing] throws the same error and
    the world, the table and the record of calls included, is as it was. *)
Theorem invalid_update_makes_no_query (currentYear id : N) (updates : list Update)
    (w : World) (e : Error) :
  result_of (CarListingService.validateUpdateData currentYear updates w) = Thrown e ->
  CarListingService.updateListing currentYear id updates w = (Thrown e, w).
Proof.
  pose proof (validateUpdateData_world currentYear updates w) as Hw.
  unfold world_of in Hw.
  unfold CarListingService.updateListing, try_catch, bind at 1, result_of.
  destruct (CarListingService.validateUpdateData currentYear updates w) as [r w'].
  cbn [fst snd] in *. subst w'. by intros ->.
Qed.

Lemma invalid_update_makes_no_query_witness :
  CarListingService.updateListing 2026 1 [UYear (Some 1850)] (world_with [sample_row 1 url1 0 true] 5)
  = (Thrown (PlainError "Invalid year value"), world_with [sample_row 1 url1 0 true] 5).
Proof.
  apply (invalid_update_makes_no_query 2026 1 [UYear (Some 1850)]
           (world_with [sample_row 1 url1 0 true] 5) (PlainError "Invalid year value")).
  reflexivity.
Defined.

Lemma sql_update_returning (now : N) (where_ : Row -> bool) (set : Row -> Violation + Row)
    (t t' : Table) (rows : list Row) :
  sql_update now where_ set t = inr (t', rows) ->
  Forall (fun row => row ∈ t'
                     /\ exists r r1, r ∈ t /\ where_ r = true /\ set r = inr r1
                                     /\ row = update_updated_at_column now r1) rows.
Proof.
  revert t' rows. induction t as [|r t IH]; intros t' rows; cbn [sql_update].
  - intros [= <- <-]. constructor.
  - assert (Hmono : forall (t1 : Table) (x : Row) (rs : list Row),
               Forall (fun row => row ∈ t1
                         /\ exists r0 r1, r0 ∈ t /\ where_ r0 = true /\ set r0 = inr r1
                                          /\ row = update_updated_at_column now r1) rs ->
               Forall (fun row => row ∈ x :: t1
                         /\ exists r0 r1, r0 ∈ r :: t /\ where_ r0 = true /\ set r0 = inr r1
                                          /\ row = update_updated_at_column now r1) rs).
    { intros t1 x rs Hrs. eapply Forall_impl; [exact Hrs|]. cbv beta.
      intros row (Hin & r0 & r1 & H0 & H1 & H2 & H3).
      split; [by right|]. exists r0, r1. split; [by right|done]. }
    destruct (where_ r) eqn:Ew.
    + destruct (set r) as [v|r1] eqn:Es; [discriminate|].
      destruct (sql_update now where_ set t) as [v|[t'' rows']]; [discriminate|].
      intros [= <- <-]. constructor; [|by apply Hmono, IH].
      split; [by left|]. exists r, r1. split; [by left|done].
    + destruct (sql_update now where_ set t) as [v|[t'' rows']]; [discriminate|].
      intros [= <- <-]. by apply Hmono, IH.
Qed.

Lemma updateListing_run (currentYear id : N) (updates : list Update) (w : World) :
  CarListingService.updateListing currentYear id updates w =
  match result_of (CarListingService.validateUpdateData currentYear updates w) with
  | Thrown e => (Thrown e, w)
  | Ok _ =>
      match CarListingModel.update id updates w with
      | (Ok (Some row), w') => (Ok row, w')
      | (Ok None, w') => (Thrown (HttpError 404 "Listing not found or inactive"), w')
      | (Thrown e, w') => (Thrown e, w')
      end
  end.
Proof.
  pose proof (validateUpdateData_world currentYear updates w) as Hw.
  unfold world_of in Hw.
  unfold CarListingService.updateListing, try_catch, bind, throw, ret, result_of.
  destruct (CarListingService.validateUpdateData currentYear updates w) as [[[]|e] w'];
    cbn [fst snd] in *; subst w'; [|reflexivity].
  by destruct (CarListingModel.update id updates w) as [[[row|]|e] w'].
Qed.

(** X20: the row [updateListing] returns.  A row that comes back is a
    row of the table as the update left it, it has the given id, it is
    active, and its [updated_at] is the time of the statement: the trigger
    of the migration has run on it. *)
Theorem updateListing_returns_stored_row (currentYear id : N) (updates : list Update)
    (w : World) (row : Row) :
  result_of (CarListingService.updateListing currentYear id updates w) = Ok row ->
  row ∈ stored (CarListingService.updateListing currentYear id updates w)
  /\ row_id row = id
  /\ row_is_active row = true
  /\ row_updated_at row = clock w.
Proof.
  unfold stored, world_of. rewrite updateListing_run, update_run. cbv zeta.
  destruct (result_of (CarListingService.validateUpdateData currentYear updates w));
    [|discriminate].
  destruct (length _ =? 0)%nat; [discriminate|].
  destruct (update_refused _ _); [discriminate|].
  destruct (sql_update _ _ _ _) as [v|[t' rows]] eqn:E; [discriminate|].
  apply sql_update_returning in E.
  destruct rows as [|row0 rows]; cbn [head]; [discriminate|].
  unfold result_of. cbn [fst snd]. intros [= <-]. cbn [after_query db table].
  apply Forall_cons in E as [(Hin & r & r1 & _ & Hwhere & Hset & ->) _].
  split; [exact Hin|].
  apply assign_all_protected in Hset. unfold protected_columns in Hset.
  injection Hset as Hid _ _ _ _ Hact.
  unfold active_with_id, has_id in Hwhere. apply andb_true_iff in Hwhere as [Hi Ha].
  apply N.eqb_eq in Hi. cbn [update_updated_at_column row_id row_is_active row_updated_at].
  split; [congruence|]. split; [congruence|reflexivity].
Qed.

Lemma updateListing_returns_stored_row_witness :
  exists row,
    result_of (CarListingService.updateListing 2026 1 [UPrice (Some (Num 400000))]
                 (world_with [sample_row 1 url1 0 true] 5)) = Ok row
    /\ row_id row = 1 /\ row_updated_at row = 5.
Proof.
  eexists. split; [reflexivity|].
  destruct (updateListing_returns_stored_row 2026 1 [UPrice (Some (Num 400000))]
              (world_with [sample_row 1 url1 0 true] 5) _ eq_refl) as (_ & A & _ & B).
  exact (conj A B).
Defined.

(** ** The filters of a listing query *)

Lemma string_method_value (f : jsstring -> jsstring) (v : option qvalue) :
  match string_method f v with
  | inl e => e = TypeError /\ is_object v = true
  | inr _ => is_object v = false
  end.
Proof. by destruct v as [[s|s]|]. Qed.

(** X21: the window of a listing query.  Whatever the query holds for
    [page] and [limit], the options [sanitizeFilters] hands to [findAll]
    give a page of at least 1, a page size between 1 and 100 and an offset
    that is not negative. *)
Theorem sanitized_window_in_range (toUpperCase : jsstring -> jsstring)
    (filters : Filters) (options : Sanitized) :
  sanitizeFilters toUpperCase filters = inr options ->
  (1 <= findAll_page options)%Z
  /\ (1 <= findAll_limit options <= 100)%Z
  /\ (0 <= findAll_offset options)%Z.
Proof.
  unfold sanitizeFilters.
  destruct (string_method toUpperCase _) as [e|upper]; [discriminate|].
  destruct (string_method trim (f_location filters)) as [e|location]; [discriminate|].
  destruct (string_method trim (f_search filters)) as [e|search]; [discriminate|].
  intros [= <-]. unfold findAll_offset, findAll_page, findAll_limit.
  cbn [s_page s_limit].
  destruct (q_truthy (f_page filters)), (q_truthy (f_limit filters));
    cbn [default from_option id]; nia.
Qed.

Lemma sanitized_window_in_range_witness :
  exists options,
    sanitizeFilters id sample_filters = inr options
    /\ findAll_limit options = 100%Z /\ findAll_offset options = 200%Z
    /\ (1 <= findAll_page options)%Z.
Proof.
  eexists. split; [reflexivity|]. split; [reflexivity|]. split; [reflexivity|].
  eapply (sanitized_window_in_range id sample_filters). reflexivity.
Defined.

Lemma existsb_str_eqb (s : jsstring) (l : list jsstring) :
  existsb (str_eqb s) l = true -> s ∈ l.
Proof.
  intros H. apply existsb_elem in H as (x & Hx & E).
  unfold str_eqb in E. apply bool_decide_eq_true in E. by subst x.
Qed.

(** X22: the text [findAll] puts into its query.  [sortBy] and
    [sortOrder] are pasted into the statement, not bound as parameters;
    whatever the query holds, after [sanitizeFilters] the clause is one of
    the eight built from the four allowed columns and the two
    directions. *)
Theorem order_by_is_allowed (toUpperCase : jsstring -> jsstring)
    (filters : Filters) (options : Sanitized) :
  sanitizeFilters toUpperCase filters = inr options ->
  findAll_order_by options ∈ order_by_clauses.
Proof.
  unfold sanitizeFilters.
  destruct (string_method toUpperCase _) as [e|upper]; [discriminate|].
  destruct (string_method trim (f_location filters)) as [e|location]; [discriminate|].
  destruct (string_method trim (f_search filters)) as [e|search]; [discriminate|].
  intros [= <-]. unfold findAll_order_by. cbn [s_sortBy s_sortOrder].
  assert (Hcol : forall col dir, col ∈ allowedSortFields -> dir ∈ sortOrders ->
                   js "ORDER BY " ++ col ++ js " " ++ dir ∈ order_by_clauses).
  { intros col dir Hc Hd. unfold order_by_clauses.
    apply list_elem_of_bind. exists col. split; [|done].
    apply list_elem_of_bind. exists dir. split; [|done]. by left. }
  assert (Hdefault_col : js "created_at" ∈ allowedSortFields) by left.
  assert (Hdefault_dir : js "DESC" ∈ sortOrders) by (right; left).
  apply Hcol.
  - destruct (f_sortBy filters) as [[s|s]|]; [|exact Hdefault_col..].
    match goal with
    | |- context [if ?c then _ else _] => destruct c eqn:E; [|exact Hdefault_col]
    end.
    apply andb_true_iff in E as [_ E]. apply existsb_str_eqb. exact E.
  - destruct upper as [u|]; [|exact Hdefault_dir].
    match goal with
    | |- context [if ?c then _ else _] => destruct c eqn:E; [|exact Hdefault_dir]
    end.
    apply existsb_str_eqb. exact E.
Qed.

Lemma order_by_is_allowed_witness :
  exists options,
    sanitizeFilters id sample_filters = inr options
    /\ findAll_order_by options = js "ORDER BY price ASC"
    /\ findAll_order_by options ∈ order_by_clauses.
Proof.
  eexists. split; [reflexivity|]. split; [reflexivity|].
  eapply (order_by_is_allowed id sample_filters). reflexivity.
Defined.

(** X23: when [sanitizeFilters] throws.  It throws exactly when
    [sortOrder], [location] or [search] is an array or object of the query
    parser, and what it throws is the [TypeError] of the missing string
    method; on every other query it returns. *)
Theorem sanitizeFilters_throws_on_objects (toUpperCase : jsstring -> jsstring)
    (filters : Filters) :
  match sanitizeFilters toUpperCase filters with
  | inl e =>
      e = TypeError
      /\ is_object (f_sortOrder filters) || is_object (f_location filters)
         || is_object (f_search filters) = true
  | inr _ =>
      is_object (f_sortOrder filters) || is_object (f_location filters)
      || is_object (f_search filters) = false
  end.
Proof.
  unfold sanitizeFilters.
  pose proof (string_method_value toUpperCase (f_sortOrder filters)) as H1.
  pose proof (string_method_value trim (f_location filters)) as H2.
  pose proof (string_method_value trim (f_search filters)) as H3.
  destruct (string_method toUpperCase _) as [e|upper].
  { destruct H1 as [-> ->]. by split. }
  destruct (string_method trim (f_location filters)) as [e|location].
  { destruct H2 as [-> ->]. split; [done|]. by rewrite orb_true_r. }
  destruct (string_method trim (f_search filters)) as [e|search].
  { destruct H3 as [-> ->]. split; [done|]. by rewrite orb_true_r. }
  by rewrite H1, H2, H3.
Qed.

(** ** The timer of [autoScroll] *)

Lemma scroll_timer_from (scrollHeight : nat -> Z) (fuel ticks : nat) :
  (10 - ticks <= fuel)%nat ->
  (ticks < 10)%nat ->
  exists n,
    scroll_timer fuel scrollHeight ticks (distance * Z.of_nat ticks)
    = Some (n, (distance * Z.of_nat n)%Z)
    /\ (ticks < n <= 10)%nat
    /\ (n = 10%nat \/ (scrollHeight (n - 1)%nat <= distance * Z.of_nat n)%Z)
    /\ (forall k, (ticks <= k)%nat -> (S k < n)%nat ->
                  (distance * Z.of_nat (S k) < scrollHeight k)%Z).
Proof.
  revert ticks. induction fuel as [|fuel IH]; intros ticks Hfuel Hticks; [lia|].
  cbn [scroll_timer]. unfold distance in *.
  replace (300 * Z.of_nat ticks + 300)%Z with (300 * Z.of_nat (S ticks))%Z by lia.
  destruct ((scrollHeight ticks <=? 300 * Z.of_nat (S ticks))%Z
            || (3000 <=? 300 * Z.of_nat (S ticks))%Z) eqn:E.
  - exists (S ticks). split; [reflexivity|]. split; [lia|]. split; [|lia].
    apply orb_true_iff in E as [E|E]; apply Z.leb_le in E.
    + right. replace (S ticks - 1)%nat with ticks by lia. lia.
    + left. lia.
  - apply orb_false_iff in E as [E1 E2]. apply Z.leb_gt in E1, E2.
    destruct (IH (S ticks)) as (n & Hn & Hb & Hstop & Hall); [lia|lia|].
    exists n. split; [exact Hn|]. split; [lia|]. split; [exact Hstop|].
    intros k Hk Hkn. destruct (decide (k = ticks)) as [->|Hne]; [lia|].
    apply Hall; lia.
Qed.

(** X24: the scroll of [autoScroll] stops.  Whatever heights the page
    reports, the timer resolves after at least one and at most ten ticks,
    two seconds, having scrolled 300 pixels per tick; it stops before the
    tenth tick only at a tick where the sum has reached the height read
    then, and at no earlier tick had it reached it. *)
Theorem autoScroll_timer_stops (scrollHeight : nat -> Z) (fuel : nat) :
  (10 <= fuel)%nat ->
  exists n,
    scroll_timer fuel scrollHeight 0 0 = Some (n, (300 * Z.of_nat n)%Z)
    /\ (1 <= n <= 10)%nat
    /\ (n = 10%nat \/ (scrollHeight (n - 1)%nat <= 300 * Z.of_nat n)%Z)
    /\ (forall k, (S k < n)%nat -> (300 * Z.of_nat (S k) < scrollHeight k)%Z).
Proof.
  intros Hfuel.
  destruct (scroll_timer_from scrollHeight fuel 0) as (n & Hn & Hb & Hstop & Hall);
    [lia|lia|].
  exists n. split; [exact Hn|]. split; [lia|]. split; [exact Hstop|].
  intros k Hk. apply Hall; lia.
Qed.

Lemma autoScroll_timer_stops_witness :
  exists n, scroll_timer 10 (fun _ => 1000%Z) 0 0 = Some (n, (300 * Z.of_nat n)%Z)
            /\ (1 <= n <= 10)%nat.
Proof.
  destruct (autoScroll_timer_stops (fun _ => 1000%Z) 10) as (n & A & B & _); [lia|].
  exists n. exact (conj A B).
Defined.
